(** * io-form: the form-state container of [src/index.ts]

    A shallow embedding of the classes [FormBase] and [Form] and of the
    JavaScript values they handle, followed by the properties of the
    construction, [set], [next], [submit] and [validate] operations.

    Modelling conventions.
    - A JavaScript object is the finite map of its own enumerable
      properties ([gmap string _]).  Key order is outside the model: no
      operation of the class observes it ([errors] is a map and [invalid]
      an existential test).
    - A property read [o[key]] follows the prototype chain.  What the
      chain holds past the own properties belongs to the JavaScript
      runtime, not to the library: it is the parameter [rt] of the model,
      and [es2017] is the runtime of the ECMAScript 2017 standard.
    - The arguments are data: null, undefined, booleans, numbers, strings,
      arrays and objects.  A function is only met as the result of a read
      on a prototype chain, and no property of a function is ever read.
    - Numbers are integers; floating point is not modelled.
    - A validator is a total function: it neither throws nor has effects.
      Its result goes through JavaScript truthiness, as
      [Array.prototype.some] does.
    - A method runs on a world made of its receiver and of the trace of the
      calls it made on the objects of its environment.  An object spread
      always builds a fresh object and no object is ever updated in place,
      so a field holds a value and sharing between instances is not
      observable. *)

From stdpp Require Import gmap strings list fin_maps pretty.

#[local] Set Warnings "-register-all".
#[local] Open Scope Z_scope.

(** ** Values *)

(** The values a form field or a method argument can hold. *)
Inductive jsval : Type :=
  | JNull
  | JUndefined
  | JBool (b : bool)
  | JNum (n : Z)
  | JStr (s : string)
  | JArr (l : list jsval)
  | JObj (m : gmap string jsval).

(** The kinds of values that have a prototype. *)
Inductive kind : Type := KBoolean | KNumber | KString | KArray | KObject.

(** The built-in objects that a prototype chain holds: a function, with
    its name and the value of its [length], or the prototype object of a
    kind, which is what [__proto__] yields. *)
Inductive builtin : Type :=
  | FunctionObject (name : string) (arity : Z)
  | PrototypeObject (k : kind).

(** What a property read yields: a value, or a built-in. *)
Inductive found : Type :=
  | Data (v : jsval)
  | Builtin (b : builtin).

(** [Fn<V, R>]: a validator, applied to what [values[key]] yields. *)
Definition Fn : Type := found → jsval.

(** What the [fns] argument of the constructor can hold: [Fns<V, R>] is the
    [FnsObj] case, the other cases are what an untyped caller can pass. *)
Inductive fnsval : Type :=
  | FnsNull
  | FnsUndefined
  | FnsBool (b : bool)
  | FnsNum (n : Z)
  | FnsStr (s : string)
  | FnsArr (l : list (list Fn))
  | FnsObj (m : gmap string (list Fn)).

(** JavaScript truthiness ([ToBoolean]). *)
Definition truthy (v : jsval) : bool :=
  match v with
  | JNull | JUndefined => false
  | JBool b => b
  | JNum n => negb (n =? 0)
  | JStr s => negb (String.eqb s "")
  | JArr _ | JObj _ => true
  end.

(** A built-in is an object, hence truthy. *)
Definition truthy_found (x : found) : bool :=
  match x with
  | Data v => truthy v
  | Builtin _ => true
  end.

(** ** Completions *)

Inductive exn : Type :=
  | Error (message : string)
  | TypeError.

(** The outcome of an evaluation: a value, or a thrown exception. *)
Inductive completion (A : Type) : Type :=
  | Return (a : A)
  | Throw (e : exn).
Arguments Return {A} a.
Arguments Throw {A} e.

#[global] Instance completion_ret : MRet completion := @Return.
#[global] Instance completion_bind : MBind completion := λ A B k c,
  match c with
  | Return a => k a
  | Throw e => Throw e
  end.

(** ** Own properties *)

(** The index-keyed properties of an array or of a string: ["0"], ["1"], ... *)
Definition indexed {A : Type} (l : list A) : gmap string A :=
  list_to_map (imap (λ i x, (pretty i, x)) l).

Definition chars (s : string) : list jsval :=
  (λ c, JStr (String c EmptyString)) <$> String.list_ascii_of_string s.

(** The own enumerable string-keyed properties: what an object spread
    [{...v}] copies and what [Object.keys(v)] lists. *)
Definition own_enumerable (v : jsval) : gmap string jsval :=
  match v with
  | JObj m => m
  | JArr l => indexed l
  | JStr s => indexed (chars s)
  | JNull | JUndefined | JBool _ | JNum _ => ∅
  end.

(** The own properties, enumerable or not: a string and an array have a
    [length]. *)
Definition own (v : jsval) (key : string) : option jsval :=
  match v with
  | JStr s =>
      if decide (key = "length") then Some (JNum (Z.of_nat (String.length s)))
      else indexed (chars s) !! key
  | JArr l =>
      if decide (key = "length") then Some (JNum (Z.of_nat (length l)))
      else indexed l !! key
  | JObj m => m !! key
  | JNull | JUndefined | JBool _ | JNum _ => None
  end.

(** [Object.keys(v)]. *)
Definition Object_keys (v : jsval) : completion (list string) :=
  match v with
  | JNull | JUndefined => Throw TypeError
  | _ => Return (map_to_list (own_enumerable v)).*1
  end.

(** The object [{...a, ...b}]: the properties of [b] override those of [a]. *)
Definition spread (a b : jsval) : jsval :=
  JObj (own_enumerable b ∪ own_enumerable a).

(** ** The runtime *)

(** The prototype chains of the runtime: [inherited k key] is what a read
    of [key] yields on a value of kind [k] that has no own property [key],
    [Data JUndefined] when the chain has none either. *)
Record Runtime : Type := { inherited : kind → string → found }.

(** The function members of a standard prototype, each with its [length],
    and its [constructor]. *)
Definition members (l : list (string * Z)) (constructor : string) :
    gmap string builtin :=
  <["constructor" := FunctionObject constructor 1]>
    (list_to_map ((λ m, (m.1, FunctionObject m.1 m.2)) <$> l)).

Definition Object_prototype : gmap string builtin :=
  members [("hasOwnProperty", 1); ("isPrototypeOf", 1);
           ("propertyIsEnumerable", 1); ("toLocaleString", 0);
           ("toString", 0); ("valueOf", 0);
           ("__defineGetter__", 2); ("__defineSetter__", 2);
           ("__lookupGetter__", 1); ("__lookupSetter__", 1)] "Object".

Definition Boolean_prototype : gmap string builtin :=
  members [("toString", 0); ("valueOf", 0)] "Boolean".

Definition Number_prototype : gmap string builtin :=
  members [("toExponential", 1); ("toFixed", 1); ("toLocaleString", 0);
           ("toPrecision", 1); ("toString", 1); ("valueOf", 0)] "Number".

Definition String_prototype : gmap string builtin :=
  members [("charAt", 1); ("charCodeAt", 1); ("codePointAt", 1);
           ("concat", 1); ("endsWith", 1); ("includes", 1); ("indexOf", 1);
           ("lastIndexOf", 1); ("localeCompare", 1); ("match", 1);
           ("normalize", 0); ("padEnd", 1); ("padStart", 1); ("repeat", 1);
           ("replace", 2); ("search", 1); ("slice", 2); ("split", 2);
           ("startsWith", 1); ("substring", 2); ("toLocaleLowerCase", 0);
           ("toLocaleUpperCase", 0); ("toLowerCase", 0); ("toString", 0);
           ("toUpperCase", 0); ("trim", 0); ("valueOf", 0);
           ("substr", 2); ("anchor", 1); ("big", 0); ("blink", 0);
           ("bold", 0); ("fixed", 0); ("fontcolor", 1); ("fontsize", 1);
           ("italics", 0); ("link", 1); ("small", 0); ("strike", 0);
           ("sub", 0); ("sup", 0)] "String".

Definition Array_prototype : gmap string builtin :=
  members [("concat", 1); ("copyWithin", 2); ("entries", 0); ("every", 1);
           ("fill", 1); ("filter", 1); ("find", 1); ("findIndex", 1);
           ("forEach", 1); ("includes", 1); ("indexOf", 1); ("join", 1);
           ("keys", 0); ("lastIndexOf", 1); ("map", 1); ("pop", 0);
           ("push", 1); ("reduce", 1); ("reduceRight", 1); ("reverse", 0);
           ("shift", 0); ("slice", 2); ("some", 1); ("sort", 1);
           ("splice", 2); ("toLocaleString", 0); ("toString", 0);
           ("unshift", 1); ("values", 0)] "Array".

Definition prototype_of (k : kind) : gmap string builtin :=
  match k with
  | KBoolean => Boolean_prototype
  | KNumber => Number_prototype
  | KString => String_prototype
  | KArray => Array_prototype
  | KObject => Object_prototype
  end.

(** The runtime of ECMAScript 2017.  The chain of a value of kind [k] is
    the prototype of [k], then [Object.prototype]; [__proto__] is the
    accessor of [Object.prototype] and yields the prototype of the
    value. *)
Definition es2017 : Runtime := {|
  inherited k key :=
    if decide (key = "__proto__") then Builtin (PrototypeObject k)
    else match prototype_of k !! key with
         | Some b => Builtin b
         | None => from_option Builtin (Data JUndefined) (Object_prototype !! key)
         end
|}.

(** ** The data of the class [Form] *)

(** [ValidationResult<V, boolean>]. *)
Module ValidationResult.
Record t : Type := mk { errors : gmap string bool; invalid : bool }.
End ValidationResult.

(** [Data<V, boolean>]: the fields of an instance. *)
Record Form : Type := mkForm {
  values : jsval;
  fns : fnsval;
  dirty : bool;
  touched : bool;
  errors : gmap string bool;
  invalid : bool
}.

(** A type whose values [_isInvalidParam<T>] can inspect. *)
Class JsParam (T : Type) : Type := {
  is_null : T → bool;
  is_undefined : T → bool;
  Array_isArray : T → bool
}.

#[global] Instance jsval_param : JsParam jsval := {|
  is_null v := match v with JNull => true | _ => false end;
  is_undefined v := match v with JUndefined => true | _ => false end;
  Array_isArray v := match v with JArr _ => true | _ => false end
|}.

#[global] Instance fnsval_param : JsParam fnsval := {|
  is_null v := match v with FnsNull => true | _ => false end;
  is_undefined v := match v with FnsUndefined => true | _ => false end;
  Array_isArray v := match v with FnsArr _ => true | _ => false end
|}.

(** [FormBase._isInvalidParam]. *)
Definition _isInvalidParam {T : Type} `{JsParam T} (variable : T) : bool :=
  is_null variable || is_undefined variable || Array_isArray variable.

(** ** Method bodies *)

(** A [SubmitEvent] of the environment, and the calls a method makes on it. *)
Definition SubmitEvent : Type := nat.

Inductive call : Type :=
  | preventDefault (e : SubmitEvent).

(** The state a method runs on: its receiver and the calls made so far. *)
Record world : Type := mkWorld { this : Form; calls : list call }.

(** A method body: it updates the world and returns or throws; the world
    it leaves is kept in both cases. *)
Definition method (A : Type) : Type := world → world * completion A.

Definition ret {A : Type} (a : A) : method A := λ w, (w, Return a).

Definition bind {A B : Type} (m : method A) (k : A → method B) : method B :=
  λ w, match m w with
       | (w', Return a) => k a w'
       | (w', Throw e) => (w', Throw e)
       end.

Declare Scope method_scope.
Delimit Scope method_scope with method.
Notation "x <- m ;; k" := (bind m (λ x, k))
  (at level 100, m at next level, right associativity) : method_scope.
Notation "m ;; k" := (bind m (λ _, k))
  (at level 100, right associativity) : method_scope.

(** Reading and updating the receiver, evaluating an expression. *)
Definition read {A : Type} (field : Form → A) : method A :=
  λ w, (w, Return (field (this w))).

Definition update (f : Form → Form) : method unit :=
  λ w, (mkWorld (f (this w)) (calls w), Return tt).

Definition eval {A : Type} (c : completion A) : method A := λ w, (w, c).

Definition invoke (c : call) : method unit :=
  λ w, (mkWorld (this w) (calls w ++ [c]), Return tt).

(** A method call on a form on which no call was made yet. *)
Definition on {A : Type} (f : Form) (m : method A) : world * completion A :=
  m (mkWorld f []).

(** [FormBase._markAsDirty]. *)
Definition _markAsDirty : method unit :=
  update (λ f, mkForm (values f) (fns f) true (touched f) (errors f) (invalid f)).

(** [FormBase._preventSubmit]. *)
Definition _preventSubmit (e : option SubmitEvent) : method unit :=
  match e with
  | Some e => invoke (preventDefault e)
  | None => ret tt
  end.

(** [FormBase._markAsTouched]. *)
Definition _markAsTouched : method unit :=
  update (λ f, mkForm (values f) (fns f) (dirty f) true (errors f) (invalid f)).

(** [FormBase._setValues]. *)
Definition _setValues (partial : jsval) : method unit :=
  update (λ f, mkForm (spread (values f) partial) (fns f) (dirty f) (touched f)
                 (errors f) (invalid f)).

(** ** Examples from the test suite *)

Definition obj (l : list (string * jsval)) : jsval := JObj (list_to_map l).

(** [(value) => value.length === 0], on what has a [length]; the validator
    is only applied to strings in the tests. *)
Definition is_empty : Fn := λ value,
  match value with
  | Data (JStr s) => JBool (Z.of_nat (String.length s) =? 0)
  | Data (JArr l) => JBool (Z.of_nat (length l) =? 0)
  | Data (JObj m) =>
      JBool match m !! "length" with Some (JNum 0) => true | _ => false end
  | Builtin (FunctionObject _ n) => JBool (n =? 0)
  | Builtin (PrototypeObject KString) | Builtin (PrototypeObject KArray) => JBool true
  | _ => JBool false
  end.

(** [Form({})] *)
Definition empty_form : Form := mkForm (JObj ∅) (FnsObj ∅) false false ∅ false.

(** [Form({code: 112, email: 'exampel@wp.pl'}, {email: [(value) =>
    value.length === 0]})] *)
Definition email_form : Form :=
  mkForm (obj [("code", JNum 112); ("email", JStr "exampel@wp.pl")])
    (FnsObj {[ "email" := [is_empty] ]}) false false
    (list_to_map [("code", false); ("email", false)]) false.

(** The [fns] arguments whose own properties are all lists of validators:
    the typed ones, and the numbers and booleans, which have none. *)
Definition only_validator_lists (fns : fnsval) : bool :=
  match fns with
  | FnsObj _ | FnsBool _ | FnsNum _ => true
  | FnsNull | FnsUndefined | FnsStr _ | FnsArr _ => false
  end.

(** The instances of the data model: [values] passed the argument check
    and [fns] holds validator lists only. *)
Definition FormState (f : Form) : Prop :=
  _isInvalidParam (values f) = false ∧ only_validator_lists (fns f) = true.

(** The receiver once [_markAsTouched] and [_setValues] have run. *)
Definition merged (f : Form) (partial : jsval) : Form :=
  mkForm (spread (values f) partial) (fns f) (dirty f) true (errors f) (invalid f).

(** The receiver once [_markAsDirty] has run. *)
Definition dirtied (f : Form) : Form :=
  mkForm (values f) (fns f) true (touched f) (errors f) (invalid f).

(** An instance with the result of a validation pass stored in it. *)
Definition validated (f : Form) (r : ValidationResult.t) : Form :=
  mkForm (values f) (fns f) (dirty f) (touched f)
    (ValidationResult.errors r) (ValidationResult.invalid r).

(** * The class [Form], on a runtime *)

Section Form.
Context (rt : Runtime).

#[local] Open Scope method_scope.

(** [v[key]]: the own property, or what the prototype chain holds. *)
Definition get (v : jsval) (key : string) : completion found :=
  match v with
  | JNull | JUndefined => Throw TypeError
  | JBool _ => Return (inherited rt KBoolean key)
  | JNum _ => Return (inherited rt KNumber key)
  | JStr _ => Return (from_option Data (inherited rt KString key) (own v key))
  | JArr _ => Return (from_option Data (inherited rt KArray key) (own v key))
  | JObj _ => Return (from_option Data (inherited rt KObject key) (own v key))
  end.

(** [fns[key]]: an own list of validators, an own value, or what the
    prototype chain holds. *)
Definition fns_get (fns : fnsval) (key : string) :
    completion (found + list Fn) :=
  match fns with
  | FnsNull | FnsUndefined => Throw TypeError
  | FnsBool _ => Return (inl (inherited rt KBoolean key))
  | FnsNum _ => Return (inl (inherited rt KNumber key))
  | FnsStr s =>
      Return (inl (from_option Data (inherited rt KString key) (own (JStr s) key)))
  | FnsArr l =>
      if decide (key = "length") then
        Return (inl (Data (JNum (Z.of_nat (length l)))))
      else
        Return (from_option inr (inl (inherited rt KArray key)) (indexed l !! key))
  | FnsObj m =>
      Return (from_option inr (inl (inherited rt KObject key)) (m !! key))
  end.

(** [fns[key] ? fns[key]?.some((fn) => fn(value)) : false].  A list of
    validators is an array, hence truthy.  Of the other truthy values only
    an array has a [some] method, and calling a missing method is a
    [TypeError]; on an array of data, [some] calls the first element,
    which is no function; [Array.prototype] is an empty array. *)
Definition result_of (e : found + list Fn) (value : found) : completion bool :=
  match e with
  | inr l => Return (existsb (λ fn : Fn, truthy (fn value)) l)
  | inl (Data (JArr [])) | inl (Builtin (PrototypeObject KArray)) => Return false
  | inl x => if truthy_found x then Throw TypeError else Return false
  end.

(** The [result] that the callback of the [reduce] of [validate] computes
    at [key]. *)
Definition field_result (values : jsval) (fns : fnsval) (key : string) :
    completion bool :=
  value ← get values key;
  entry ← fns_get fns key;
  result_of entry value.

(** One step of that [reduce]: [{...acc, [key]: result}]. *)
Definition validate_step (values : jsval) (fns : fnsval)
    (acc : completion (gmap string bool)) (key : string) :
    completion (gmap string bool) :=
  acc ← acc;
  result ← field_result values fns key;
  Return (<[key := result]> acc).

(** [Form.validate]: it reads its three arguments and nothing else. *)
Definition validate (keys : list string) (values : jsval) (fns : fnsval) :
    completion ValidationResult.t :=
  errors ← foldl (validate_step values fns) (Return ∅) keys;
  Return (ValidationResult.mk errors
            (existsb (λ key, default false (errors !! key)) keys)).


(** [this.validate(Object.keys(values), values, fns)], as [_setValidation]
    calls it. *)
Definition validation (values : jsval) (fns : fnsval) :
    completion ValidationResult.t :=
  keys ← Object_keys values;
  validate keys values fns.

(** [new Form(values, fns, dirty, touched)].  A parameter that is omitted or
    [undefined] takes its default: [{}] for [fns], [false] for the flags. *)
Definition new_Form (values : jsval) (fns : fnsval) (dirty touched : option bool) :
    completion Form :=
  let fns := if is_undefined fns then FnsObj ∅ else fns in
  let dirty := default false dirty in
  let touched := default false touched in
  if _isInvalidParam values then
    Throw (Error "values parameter must be an object")
  else if _isInvalidParam fns then
    Throw (Error "fns parameter must be an object")
  else
    r ← validation values fns;
    Return (mkForm values fns dirty touched
              (ValidationResult.errors r) (ValidationResult.invalid r)).

(** [Form.build], the default export. *)
Definition build := new_Form.

(** [FormBase._setValidation]. *)
Definition _setValidation : method unit :=
  values_ <- read values ;;
  fns_ <- read fns ;;
  r <- eval (validation values_ fns_) ;;
  update (λ f, mkForm (values f) (fns f) (dirty f) (touched f)
                 (ValidationResult.errors r) (ValidationResult.invalid r)).

(** The snapshot [new Form(this.values, this.fns, this.dirty, this.touched)]
    that [next] and [submit] return. *)
Definition snapshot : method Form :=
  values_ <- read values ;;
  fns_ <- read fns ;;
  dirty_ <- read dirty ;;
  touched_ <- read touched ;;
  eval (new_Form values_ fns_ (Some dirty_) (Some touched_)).

(** [Form.next]. *)
Definition next (partial : jsval) : method Form :=
  _markAsTouched ;;
  _setValues partial ;;
  snapshot.

(** [Form.set]. *)
Definition set (partial : jsval) : method unit :=
  if _isInvalidParam partial then
    eval (Throw (Error "values parameter must be an object"))
  else
    _markAsTouched ;;
    _setValues partial ;;
    _setValidation.

(** [Form.submit]. *)
Definition submit (e : option SubmitEvent) : method Form :=
  _preventSubmit e ;;
  _markAsDirty ;;
  snapshot.

#[local] Close Scope method_scope.

(** ** Vocabulary of the properties *)

(** What [get] yields, for a value that has properties. *)
Definition value_at (v : jsval) (key : string) : found :=
  match get v key with
  | Return x => x
  | Throw _ => Data JUndefined
  end.

(** [fns[key]] is a list of validators, an empty array or a falsy value:
    the cases in which the callback of [validate] has a result.  It fails
    for a key that [fns] does not own and that its prototype chain holds,
    as [constructor] or [toString]. *)
Definition plain (fns : fnsval) (key : string) : bool :=
  match fns_get fns key with
  | Return (inr _) => true
  | Return (inl (Data (JArr []))) | Return (inl (Builtin (PrototypeObject KArray))) =>
      true
  | Return (inl x) => negb (truthy_found x)
  | Throw _ => false
  end.

(** Every field of [values] is [plain] for [fns]. *)
Definition well_keyed (v : jsval) (fns : fnsval) : bool :=
  forallb (plain fns) (map_to_list (own_enumerable v)).*1.

(** The error flag of a field. *)
Definition flag_of (v : jsval) (fns : fnsval) (key : string) : bool :=
  match fns_get fns key with
  | Return (inr l) => existsb (λ fn : Fn, truthy (fn (value_at v key))) l
  | _ => false
  end.

(** [errors] and [invalid] are those of a validation pass over the current
    [values] and [fns]. *)
Definition fresh (f : Form) : Prop :=
  validation (values f) (fns f)
  = Return (ValidationResult.mk (errors f) (invalid f)).

(** The flag of a field whose result is a value. *)
Definition flag (v : jsval) (fns : fnsval) (key : string) : bool :=
  match field_result v fns key with
  | Return b => b
  | Throw _ => false
  end.

(** One method call on an instance [f]: what it leaves of the receiver,
    whether it returns or throws, and the instance it returns. *)
Inductive step (f : Form) : Form → Prop :=
  | step_set (partial : jsval) :
      step f (this (fst (on f (set partial))))
  | step_next (partial : jsval) :
      step f (this (fst (on f (next partial))))
  | step_next_result (partial : jsval) (w' : world) (f' : Form) :
      on f (next partial) = (w', Return f') → step f f'
  | step_submit (e : option SubmitEvent) :
      step f (this (fst (on f (submit e))))
  | step_submit_result (e : option SubmitEvent) (w' : world) (f' : Form) :
      on f (submit e) = (w', Return f') → step f f'.

(** * Properties *)

(** ** The argument check *)

Lemma _isInvalidParam_jsval (v : jsval) :
  _isInvalidParam v = true ↔ v = JNull ∨ v = JUndefined ∨ ∃ l, v = JArr l.
Proof.
  split.
  - destruct v; cbn; try discriminate; eauto.
  - intros [-> | [-> | [l ->]]]; reflexivity.
Qed.

Lemma _isInvalidParam_fnsval (v : fnsval) :
  _isInvalidParam v = true ↔ v = FnsNull ∨ v = FnsUndefined ∨ ∃ l, v = FnsArr l.
Proof.
  split.
  - destruct v; cbn; try discriminate; eauto.
  - intros [-> | [-> | [l ->]]]; reflexivity.
Qed.

Lemma _isInvalidParam_spread (a b : jsval) : _isInvalidParam (spread a b) = false.
Proof. reflexivity. Qed.

Lemma _isInvalidParam_defined (fns_ : fnsval) :
  _isInvalidParam fns_ = false → is_undefined fns_ = false.
Proof. by destruct fns_. Qed.

Lemma only_validator_lists_valid (fns_ : fnsval) :
  only_validator_lists fns_ = true → _isInvalidParam fns_ = false.
Proof. by destruct fns_. Qed.

(** ** The merge *)

Lemma spread_lookup (a b : jsval) (key : string) :
  own_enumerable (spread a b) !! key
  = match own_enumerable b !! key with
    | Some x => Some x
    | None => own_enumerable a !! key
    end.
Proof.
  cbn. rewrite lookup_union.
  by destruct (own_enumerable b !! key), (own_enumerable a !! key).
Qed.

Lemma spread_idemp (a b : jsval) : spread (spread a b) b = spread a b.
Proof.
  unfold spread. f_equal. cbn. by rewrite (assoc_L (∪)), (idemp_L (∪)).
Qed.

Lemma spread_assoc (a b c : jsval) :
  spread (spread a b) c = spread a (spread b c).
Proof. unfold spread. cbn. by rewrite (assoc_L (∪)). Qed.

(** ** The reduce of [validate] *)

(** Once an exception is thrown, the remaining steps keep it. *)
Lemma foldl_validate_step_Throw (v : jsval) (fns_ : fnsval) (e : exn)
    (keys : list string) :
  foldl (validate_step v fns_) (Throw e) keys = Throw e.
Proof. induction keys as [|key keys IH]; [done|]. exact IH. Qed.

(** Where every key has a result [g key], the reduce inserts them in turn. *)
Lemma foldl_validate_step_Return (v : jsval) (fns_ : fnsval)
    (g : string → bool) (keys : list string) :
  (∀ key, key ∈ keys → field_result v fns_ key = Return (g key)) →
  ∀ acc, foldl (validate_step v fns_) (Return acc) keys
         = Return (foldl (λ acc key, <[key := g key]> acc) acc keys).
Proof.
  induction keys as [|key keys IH]; intros Hg acc; [done|].
  cbn [foldl]. unfold validate_step at 2. cbn.
  rewrite (Hg key) by left. cbn.
  apply IH. intros key' Hin. apply Hg. by right.
Qed.

(** When the reduce returns, every key had a result. *)
Lemma foldl_validate_step_inv (v : jsval) (fns_ : fnsval) (keys : list string) :
  ∀ acc m, foldl (validate_step v fns_) (Return acc) keys = Return m →
           ∀ key, key ∈ keys → field_result v fns_ key = Return (flag v fns_ key).
Proof.
  induction keys as [|k keys IH]; intros acc m Hm key Hin.
  { by apply elem_of_nil in Hin. }
  cbn [foldl] in Hm. unfold validate_step at 2 in Hm. cbn in Hm.
  destruct (field_result v fns_ k) as [b|e] eqn:Hk; cbn in Hm.
  - apply elem_of_cons in Hin as [->|Hin].
    + unfold flag. by rewrite Hk.
    + by apply (IH _ _ Hm).
  - by rewrite foldl_validate_step_Throw in Hm.
Qed.

(** The map that inserting [g key] for each key builds. *)
Lemma foldl_insert_lookup (g : string → bool) (keys : list string)
    (acc : gmap string bool) (key : string) :
  foldl (λ acc key, <[key := g key]> acc) acc keys !! key
  = if decide (key ∈ keys) then Some (g key) else acc !! key.
Proof.
  revert acc. induction keys as [|k keys IH]; intros acc; cbn [foldl].
  - case_decide as Hin; [by apply elem_of_nil in Hin | done].
  - rewrite IH. destruct (decide (key ∈ keys)) as [Hin|Hin].
    + rewrite decide_True; [done | by right].
    + destruct (decide (k = key)) as [->|Hne].
      * rewrite decide_True by left. apply lookup_insert_eq.
      * rewrite decide_False, lookup_insert_ne; [done..|].
        intros [->|?]%elem_of_cons; done.
Qed.

Lemma existsb_default_lookup (g : string → bool) (keys : list string)
    (m : gmap string bool) :
  (∀ key, key ∈ keys → m !! key = Some (g key)) →
  existsb (λ key, default false (m !! key)) keys = existsb g keys.
Proof.
  induction keys as [|key keys IH]; intros Hm; [done|]. cbn.
  rewrite (Hm key) by left. cbn. f_equal. apply IH.
  intros key' Hin. apply Hm. by right.
Qed.

Lemma existsb_elements (g : string → bool) (keys keys' : list string) :
  (∀ key, key ∈ keys ↔ key ∈ keys') → existsb g keys = existsb g keys'.
Proof.
  intros Hkeys. apply eq_true_iff_eq. rewrite !existsb_exists.
  split; intros (key & Hin & Hg); exists key; split; try done;
    apply list_elem_of_In, Hkeys, list_elem_of_In, Hin.
Qed.

Lemma existsb_Permutation {A : Type} (g : A → bool) (l l' : list A) :
  l ≡ₚ l' → existsb g l = existsb g l'.
Proof.
  intros Hperm. apply eq_true_iff_eq. rewrite !existsb_exists.
  split; intros (x & Hin & Hg); exists x; split; try done;
    apply list_elem_of_In; apply list_elem_of_In in Hin.
  - by rewrite <- Hperm.
  - by rewrite Hperm.
Qed.

(** ** The validation pass *)

(** [validate] returns as soon as every key has a result. *)
Lemma validate_Return (v : jsval) (fns_ : fnsval) (g : string → bool)
    (keys : list string) :
  (∀ key, key ∈ keys → field_result v fns_ key = Return (g key)) →
  ∃ r, validate keys v fns_ = Return r
       ∧ (∀ key, ValidationResult.errors r !! key
                 = if decide (key ∈ keys) then Some (g key) else None)
       ∧ ValidationResult.invalid r = existsb g keys.
Proof.
  intros Hg. unfold validate.
  rewrite (foldl_validate_step_Return v fns_ g keys Hg). cbn.
  eexists; split; [reflexivity|]. cbn. split.
  - intros key. by rewrite foldl_insert_lookup, lookup_empty.
  - apply existsb_default_lookup. intros key Hin.
    by rewrite foldl_insert_lookup, decide_True.
Qed.

Lemma validate_Return_inv (keys : list string) (v : jsval) (fns_ : fnsval)
    (r : ValidationResult.t) :
  validate keys v fns_ = Return r →
  ∀ key, key ∈ keys → field_result v fns_ key = Return (flag v fns_ key).
Proof.
  unfold validate. intros Hr.
  destruct (foldl (validate_step v fns_) (Return ∅) keys) as [m|e] eqn:Hm;
    [|done].
  by apply (foldl_validate_step_inv v fns_ keys ∅ m).
Qed.

(** What [validate] returns, when it returns. *)
Lemma validate_shape (keys : list string) (v : jsval) (fns_ : fnsval)
    (r : ValidationResult.t) :
  validate keys v fns_ = Return r →
  (∀ key, ValidationResult.errors r !! key
          = if decide (key ∈ keys) then Some (flag v fns_ key) else None)
  ∧ ValidationResult.invalid r = existsb (flag v fns_) keys.
Proof.
  intros Hr. pose proof (validate_Return_inv keys v fns_ r Hr) as Hflags.
  destruct (validate_Return v fns_ (flag v fns_) keys Hflags)
    as (r' & Hr' & Herr & Hinv).
  rewrite Hr' in Hr. by injection Hr as <-.
Qed.

(** [validate] depends on [values] and [fns] through the results of the
    fields it is asked for. *)
Lemma validate_ext (keys : list string) (v v' : jsval) (fns_ fns' : fnsval) :
  (∀ key, key ∈ keys → field_result v fns_ key = field_result v' fns' key) →
  validate keys v fns_ = validate keys v' fns'.
Proof.
  intros Hkeys. unfold validate.
  assert (∀ l acc, (∀ key, key ∈ l → field_result v fns_ key
                                    = field_result v' fns' key) →
                   foldl (validate_step v fns_) acc l
                   = foldl (validate_step v' fns') acc l) as Hfold.
  { induction l as [|key l IH]; intros acc Hl; [done|]. cbn [foldl].
    unfold validate_step at 2 4. rewrite (Hl key) by left.
    apply IH. intros key' Hin. apply Hl. by right. }
  by rewrite Hfold.
Qed.

Lemma get_Return (v : jsval) (key : string) :
  _isInvalidParam v = false → get v key = Return (value_at v key).
Proof. unfold value_at. by destruct v. Qed.

(** The result of a [plain] field. *)
Lemma field_result_Return (v : jsval) (fns_ : fnsval) (key : string) :
  _isInvalidParam v = false → plain fns_ key = true →
  field_result v fns_ key = Return (flag_of v fns_ key).
Proof.
  intros Hv Hplain. unfold field_result. rewrite (get_Return v key Hv). cbn.
  unfold plain in Hplain. unfold flag_of.
  destruct (fns_get fns_ key) as [[x|l]|e]; cbn; [|done..].
  destruct x as [[| | | | |[|]|]|[|[]]]; cbn in *; try done;
    by destruct (negb _) eqn:Hn;
      [apply negb_true_iff in Hn; rewrite Hn|].
Qed.

(** The validation pass throws no [Error]: what it can throw is the
    [TypeError] of a property read or of a call. *)
Lemma field_result_Throw (v : jsval) (fns_ : fnsval) (key : string) (e : exn) :
  field_result v fns_ key = Throw e → e = TypeError.
Proof.
  unfold field_result.
  destruct (get v key) as [value|e1] eqn:Hget; cbn.
  2: { intros [= <-]. destruct v; cbn in Hget; congruence. }
  destruct (fns_get fns_ key) as [entry|e2] eqn:Hfns; cbn.
  2: { intros [= <-].
       destruct fns_; cbn in Hfns; try congruence; by case_decide. }
  destruct entry as [x|l]; cbn; [|congruence].
  destruct x as [[| | | | |[|]|]|[|[]]]; cbn; try congruence;
    by match goal with |- context [if ?b then _ else _] => destruct b end;
      intros [= <-].
Qed.

Lemma validate_Throw (keys : list string) (v : jsval) (fns_ : fnsval) (e : exn) :
  validate keys v fns_ = Throw e → e = TypeError.
Proof.
  unfold validate.
  assert (∀ acc, foldl (validate_step v fns_) (Return acc) keys = Throw e →
                 e = TypeError) as Hfold.
  { induction keys as [|key keys IH]; intros acc; cbn [foldl]; [done|].
    unfold validate_step at 2. cbn.
    destruct (field_result v fns_ key) as [b|e'] eqn:Hkey; cbn.
    - apply IH.
    - rewrite foldl_validate_step_Throw. intros [= <-].
      by apply field_result_Throw in Hkey. }
  destruct (foldl _ _ keys) as [m|e'] eqn:Hm; cbn; [done|].
  intros [= <-]. by apply Hfold in Hm.
Qed.

Lemma validation_Throw (v : jsval) (fns_ : fnsval) (e : exn) :
  validation v fns_ = Throw e → e = TypeError.
Proof.
  unfold validation. destruct (Object_keys v) as [keys|e'] eqn:Hkeys; cbn.
  - apply validate_Throw.
  - intros [= <-]. destruct v; cbn in Hkeys; congruence.
Qed.

Lemma elem_of_Object_keys (v : jsval) (keys : list string) (key : string) :
  Object_keys v = Return keys → key ∈ keys ↔ is_Some (own_enumerable v !! key).
Proof.
  intros Hkeys.
  assert (keys = (map_to_list (own_enumerable v)).*1) as ->
    by (unfold Object_keys in Hkeys; destruct v; congruence).
  rewrite list_elem_of_fmap. split.
  - intros [[k x] [-> Hin]]. apply elem_of_map_to_list in Hin. by exists x.
  - intros [x Hx]. exists (key, x). split; [done|]. by apply elem_of_map_to_list.
Qed.

Lemma Object_keys_Return (v : jsval) :
  _isInvalidParam v = false →
  Object_keys v = Return (map_to_list (own_enumerable v)).*1.
Proof. by destruct v. Qed.

Lemma well_keyed_plain (v : jsval) (fns_ : fnsval) (key : string) :
  well_keyed v fns_ = true → is_Some (own_enumerable v !! key) →
  plain fns_ key = true.
Proof.
  unfold well_keyed. rewrite forallb_forall. intros Hall [x Hx].
  apply Hall, list_elem_of_In, list_elem_of_fmap. exists (key, x).
  split; [done|]. by apply elem_of_map_to_list.
Qed.

(** What a validation pass returns, when it returns: one flag per field. *)
Lemma validation_shape (v : jsval) (fns_ : fnsval) (r : ValidationResult.t) :
  validation v fns_ = Return r →
  (∀ key, ValidationResult.errors r !! key
          = if decide (is_Some (own_enumerable v !! key))
            then Some (flag v fns_ key) else None)
  ∧ (ValidationResult.invalid r = true
     ↔ ∃ key, ValidationResult.errors r !! key = Some true).
Proof.
  unfold validation. destruct (Object_keys v) as [keys|e] eqn:Hkeys; [|done].
  cbn. intros Hr. destruct (validate_shape keys v fns_ r Hr) as [Herr Hinv].
  pose proof (λ key, elem_of_Object_keys v keys key Hkeys) as Hin.
  split.
  - intros key. rewrite Herr. destruct (decide (key ∈ keys)) as [Hk|Hk].
    + rewrite decide_True; [done | by apply Hin].
    + rewrite decide_False; [done | by rewrite <- Hin].
  - rewrite Hinv, existsb_exists. split.
    + intros (key & Hk & Hflag). exists key.
      rewrite Herr, decide_True, Hflag; [done|]. by apply list_elem_of_In.
    + intros (key & Hkey). rewrite Herr in Hkey. case_decide as Hk; [|done].
      exists key. split; [by apply list_elem_of_In | congruence].
Qed.

(** The validation pass returns on [values] that passed the check and
    whose fields are [plain]. *)
Lemma validation_Return (v : jsval) (fns_ : fnsval) :
  _isInvalidParam v = false → well_keyed v fns_ = true →
  ∃ r, validation v fns_ = Return r.
Proof.
  intros Hv Hkeys. unfold validation. rewrite (Object_keys_Return v Hv). cbn.
  destruct (validate_Return v fns_ (flag_of v fns_)
              (map_to_list (own_enumerable v)).*1) as (r & Hr & _).
  { intros key Hin. apply field_result_Return; [done|].
    apply (well_keyed_plain v); [done|].
    by apply (elem_of_Object_keys v _ key (Object_keys_Return v Hv)). }
  by exists r.
Qed.

(** The flag of a [plain] field. *)
Lemma flag_plain (v : jsval) (fns_ : fnsval) (key : string) :
  _isInvalidParam v = false → plain fns_ key = true →
  flag v fns_ key = flag_of v fns_ key.
Proof. intros Hv Hp. unfold flag. by rewrite field_result_Return. Qed.

(** A field has a result exactly when it is [plain]. *)
Lemma field_result_plain (v : jsval) (fns_ : fnsval) (key : string) (b : bool) :
  field_result v fns_ key = Return b → plain fns_ key = true.
Proof.
  unfold field_result, plain.
  destruct (get v key) as [value|e]; cbn; [|done].
  destruct (fns_get fns_ key) as [[x|l]|e]; cbn; [|done..].
  destruct x as [[| | | | |[|]|]|[|[]]]; cbn; try done;
    by match goal with |- context [if ?c then _ else _] => destruct c end.
Qed.

Lemma validation_well_keyed (v : jsval) (fns_ : fnsval) (r : ValidationResult.t) :
  validation v fns_ = Return r → well_keyed v fns_ = true.
Proof.
  unfold validation, well_keyed.
  destruct (Object_keys v) as [keys|e] eqn:Hkeys; [|done]. cbn. intros Hr.
  assert (keys = (map_to_list (own_enumerable v)).*1) as <-
    by (unfold Object_keys in Hkeys; destruct v; congruence).
  apply forallb_forall. intros key Hin. apply list_elem_of_In in Hin.
  by apply (field_result_plain v fns_ key _ (validate_Return_inv _ _ _ _ Hr key Hin)).
Qed.

(** ** Instances *)

(** What the constructor returns on arguments that pass the checks, when
    the fields of [values] are [plain]. *)
Lemma new_Form_Return (v : jsval) (fns_ : fnsval) (d t : bool) :
  _isInvalidParam v = false → _isInvalidParam fns_ = false →
  well_keyed v fns_ = true →
  ∃ r, validation v fns_ = Return r
       ∧ new_Form v fns_ (Some d) (Some t)
         = Return (mkForm v fns_ d t (ValidationResult.errors r)
                     (ValidationResult.invalid r)).
Proof.
  intros Hv Hfns Hkeys. destruct (validation_Return v fns_ Hv Hkeys) as (r & Hr).
  exists r. split; [done|]. unfold new_Form.
  by rewrite (_isInvalidParam_defined fns_ Hfns), Hv, Hfns, Hr.
Qed.

(** What the constructor returns, when it returns. *)
Lemma new_Form_inv (v : jsval) (fns_ : fnsval) (d t : option bool) (f : Form) :
  new_Form v fns_ d t = Return f →
  _isInvalidParam v = false
  ∧ ∃ r, validation v (if is_undefined fns_ then FnsObj ∅ else fns_) = Return r
         ∧ f = mkForm v (if is_undefined fns_ then FnsObj ∅ else fns_)
                 (default false d) (default false t)
                 (ValidationResult.errors r) (ValidationResult.invalid r).
Proof.
  unfold new_Form. destruct (_isInvalidParam v); [done|].
  destruct (_isInvalidParam (if is_undefined fns_ then _ else _)); [done|].
  destruct (validation v _) as [r|e]; cbn; [|done].
  intros [= <-]. split; [done|]. by exists r.
Qed.

(** Every instance that the constructor returns is fresh. *)
Lemma new_Form_fresh (v : jsval) (fns_ : fnsval) (d t : option bool) (f : Form) :
  new_Form v fns_ d t = Return f → fresh f.
Proof.
  intros Hnew. destruct (new_Form_inv _ _ _ _ _ Hnew) as (_ & r & Hr & ->).
  unfold fresh. cbn [values fns errors invalid]. rewrite Hr. by destruct r.
Qed.

(** An instance that the constructor returns for a typed [fns] is in the
    data model. *)
Lemma new_Form_FormState (v : jsval) (fm : gmap string (list Fn))
    (d t : option bool) (f : Form) :
  new_Form v (FnsObj fm) d t = Return f → FormState f.
Proof.
  intros Hnew. destruct (new_Form_inv _ _ _ _ _ Hnew) as (Hv & r & _ & ->).
  by split.
Qed.

(** On a fresh instance, [errors] has the keys of [values] and [invalid]
    is the disjunction of the flags of [errors]. *)
Lemma fresh_errors_invalid (f : Form) :
  fresh f →
  dom (errors f) = dom (own_enumerable (values f))
  ∧ (invalid f = true ↔ ∃ key, errors f !! key = Some true).
Proof.
  intros Hfresh. destruct (validation_shape _ _ _ Hfresh) as [Herr Hinv].
  cbn in Herr, Hinv. split; [|exact Hinv].
  apply leibniz_equiv. intros key. rewrite !elem_of_dom, Herr.
  case_decide; [by split | split; [by intros [? ?] | done]].
Qed.

(** ** The methods, step by step *)

Lemma set_steps (partial : jsval) (w : world) :
  _isInvalidParam partial = false →
  set partial w
  = match validation (spread (values (this w)) partial) (fns (this w)) with
    | Return r =>
        (mkWorld (validated (merged (this w) partial) r) (calls w), Return tt)
    | Throw e => (mkWorld (merged (this w) partial) (calls w), Throw e)
    end.
Proof.
  intros Hp. unfold set. rewrite Hp.
  unfold bind, _markAsTouched, _setValues, _setValidation, bind, read, update,
    eval.
  cbn [this calls values fns fst snd].
  by destruct (validation _ _).
Qed.

Lemma next_steps (partial : jsval) (w : world) :
  next partial w
  = (mkWorld (merged (this w) partial) (calls w),
     new_Form (spread (values (this w)) partial) (fns (this w))
       (Some (dirty (this w))) (Some true)).
Proof. reflexivity. Qed.

Lemma submit_steps (e : option SubmitEvent) (w : world) :
  submit e w
  = (mkWorld (dirtied (this w))
       (calls w ++ match e with Some e => [preventDefault e] | None => [] end),
     new_Form (values (this w)) (fns (this w)) (Some true)
       (Some (touched (this w)))).
Proof. destruct e; [reflexivity|]. cbn. by rewrite app_nil_r. Qed.


(** [set] leaves a fresh instance. *)
Lemma set_fresh (partial : jsval) (w w' : world) :
  set partial w = (w', Return tt) → fresh (this w').
Proof.
  destruct (_isInvalidParam partial) eqn:Hp.
  { unfold set. by rewrite Hp. }
  rewrite set_steps by done.
  destruct (validation _ (fns (this w))) as [[errs inv]|e] eqn:Hr; [|done].
  intros [= <-]. exact Hr.
Qed.

(** [next], as the constructor, returns a fresh instance. *)
Lemma next_fresh (partial : jsval) (w w' : world) (f' : Form) :
  next partial w = (w', Return f') → fresh f'.
Proof. rewrite next_steps. intros [= _ Hnew]. by apply new_Form_fresh in Hnew. Qed.

(** [submit] does not touch what the validation pass of the receiver
    depends on. *)
Lemma submit_receiver_fresh (e : option SubmitEvent) (w : world) :
  fresh (this w) → fresh (this (fst (submit e w))).
Proof. by rewrite submit_steps. Qed.

(** The instance that [submit] returns is fresh. *)
Lemma submit_fresh (e : option SubmitEvent) (w w' : world) (f' : Form) :
  submit e w = (w', Return f') → fresh f'.
Proof. rewrite submit_steps. intros [= _ Hnew]. by apply new_Form_fresh in Hnew. Qed.

(** What [next] does, whatever the partial is, when the fields of the
    merge are [plain]. *)
Lemma next_Return (w : world) (partial : jsval) :
  FormState (this w) →
  well_keyed (spread (values (this w)) partial) (fns (this w)) = true →
  ∃ r, validation (spread (values (this w)) partial) (fns (this w)) = Return r
       ∧ next partial w
         = (mkWorld (merged (this w) partial) (calls w),
            Return (validated (merged (this w) partial) r)).
Proof.
  intros [Hv Hfns] Hkeys. rewrite next_steps.
  destruct (new_Form_Return (spread (values (this w)) partial) (fns (this w))
              (dirty (this w)) true) as (r & Hr & ->);
    [done | by apply only_validator_lists_valid | done |].
  by exists r.
Qed.

(** ** Construction *)

(** C5, amended: the construction throws the error "values parameter must
    be an object" when [values] is [null], [undefined] or an array, whatever
    [fns] is, and the error "fns parameter must be an object" when [values]
    passes the check and [fns] is [null] or an array; in both cases it
    returns no instance.  An [fns] that is omitted or [undefined] is the
    default [{}]. *)
Theorem new_Form_rejects (v : jsval) (fns_ : fnsval) (d t : option bool) :
  (v = JNull ∨ v = JUndefined ∨ (∃ l, v = JArr l) →
   new_Form v fns_ d t = Throw (Error "values parameter must be an object"))
  ∧ (¬ (v = JNull ∨ v = JUndefined ∨ ∃ l, v = JArr l) →
     fns_ = FnsNull ∨ (∃ l, fns_ = FnsArr l) →
     new_Form v fns_ d t = Throw (Error "fns parameter must be an object"))
  ∧ new_Form v FnsUndefined d t = new_Form v (FnsObj ∅) d t.
Proof.
  split; [|split; [|reflexivity]].
  - intros Hv. apply _isInvalidParam_jsval in Hv. unfold new_Form. by rewrite Hv.
  - intros Hv Hfns. unfold new_Form.
    destruct (_isInvalidParam v) eqn:Hc.
    { by apply _isInvalidParam_jsval in Hc. }
    by destruct Hfns as [-> | [l ->]].
Qed.

(** C8, amended: the argument check holds exactly for [null], [undefined]
    and arrays, and no other argument makes the construction or [set] throw
    its error.  When [values] and [fns] pass the check, a number, a string
    or a boolean included, the construction returns an instance as soon
    as, for every field of [values], [fns[field]] is a list of validators,
    an empty array or a falsy value; and [set] returns, for a partial that
    passes the check, as soon as the fields of the merged values are
    so. *)
Theorem argument_check_exact (v partial : jsval) (fns_ : fnsval)
    (d t : option bool) (w : world) :
  (_isInvalidParam v = true ↔ v = JNull ∨ v = JUndefined ∨ ∃ l, v = JArr l)
  ∧ (_isInvalidParam fns_ = true
     ↔ fns_ = FnsNull ∨ fns_ = FnsUndefined ∨ ∃ l, fns_ = FnsArr l)
  ∧ (∀ message, new_Form v fns_ d t = Throw (Error message) →
       _isInvalidParam v = true ∨ _isInvalidParam fns_ = true)
  ∧ (∀ message w', set partial w = (w', Throw (Error message)) →
       _isInvalidParam partial = true)
  ∧ (_isInvalidParam v = false →
     _isInvalidParam (if is_undefined fns_ then FnsObj ∅ else fns_) = false →
     well_keyed v (if is_undefined fns_ then FnsObj ∅ else fns_) = true →
     ∃ f, new_Form v fns_ d t = Return f)
  ∧ (_isInvalidParam partial = false →
     well_keyed (spread (values (this w)) partial) (fns (this w)) = true →
     ∃ w', set partial w = (w', Return tt)).
Proof.
  split; [apply _isInvalidParam_jsval|].
  split; [apply _isInvalidParam_fnsval|].
  split; [|split; [|split]].
  - intros message. unfold new_Form.
    destruct (_isInvalidParam v); [by left|].
    destruct fns_; cbn; try (by right);
      match goal with
      | |- context [validation ?a ?b] =>
          destruct (validation a b) as [r|e] eqn:Hr; cbn; [done|];
          apply validation_Throw in Hr as ->; done
      end.
  - intros message w'. destruct (_isInvalidParam partial) eqn:Hp; [done|].
    rewrite set_steps by done.
    destruct (validation _ (fns (this w))) as [r|e] eqn:Hr; [done|].
    apply validation_Throw in Hr as ->. done.
  - intros Hv Hfns Hkeys. destruct (validation_Return v _ Hv Hkeys) as (r & Hr).
    unfold new_Form. rewrite Hv, Hfns, Hr. by eexists.
  - intros Hp Hkeys. rewrite set_steps by done.
    destruct (validation_Return (spread (values (this w)) partial)
                (fns (this w))) as (r & ->); [done..|].
    by eexists.
Qed.

(** ** [set] *)

(** C9: when [set] is called with [null], [undefined] or an array, it throws
    the error "values parameter must be an object" and leaves the receiver
    as it was: [values], [errors], [invalid], [dirty] and [touched] are
    unchanged. *)
Theorem set_invalid_unchanged (w : world) (partial : jsval) :
  partial = JNull ∨ partial = JUndefined ∨ (∃ l, partial = JArr l) →
  set partial w = (w, Throw (Error "values parameter must be an object")).
Proof.
  intros Hp. apply _isInvalidParam_jsval in Hp. unfold set. by rewrite Hp.
Qed.

Lemma merged_FormState (f : Form) (partial : jsval) :
  only_validator_lists (fns f) = true → FormState (merged f partial).
Proof. by split. Qed.

(** C6, amended: on an instance with values [oldValues] and for a partial
    [p] that passes the check, when every field of the merge is [plain]
    for [fns], [set(p)] returns and leaves as [values] the object that
    has, at each key, the property of [p] when [p] has one and the one of
    [oldValues] otherwise, with [touched] true; [next(p).values] is that
    same object; and a second [set(p)] leaves [values] as the first one
    did. *)
Theorem set_next_shallow_merge (w : world) (partial : jsval) :
  FormState (this w) → _isInvalidParam partial = false →
  well_keyed (spread (values (this w)) partial) (fns (this w)) = true →
  ∃ (vm : gmap string jsval) (w1 : world),
    (∀ key, vm !! key
            = match own_enumerable partial !! key with
              | Some x => Some x
              | None => own_enumerable (values (this w)) !! key
              end)
    ∧ set partial w = (w1, Return tt)
    ∧ values (this w1) = JObj vm
    ∧ touched (this w1) = true
    ∧ (∃ w2 f', next partial w = (w2, Return f') ∧ values f' = JObj vm)
    ∧ (∃ w3, set partial w1 = (w3, Return tt) ∧ values (this w3) = JObj vm).
Proof.
  intros [Hv Hfns] Hp Hkeys.
  exists (own_enumerable partial ∪ own_enumerable (values (this w))).
  destruct (validation_Return (spread (values (this w)) partial) (fns (this w)))
    as (r & Hr); [done..|].
  exists (mkWorld (validated (merged (this w) partial) r) (calls w)).
  split; [intros key; apply (spread_lookup (values (this w)) partial)|].
  split; [by rewrite set_steps, Hr|].
  split; [done|]. split; [done|]. split.
  - destruct (next_Return w partial) as (r' & _ & ->); [done..|].
    by eexists _, _.
  - rewrite set_steps by done. unfold validated, merged. cbn [this calls values fns].
    rewrite spread_idemp, Hr. eexists. split; reflexivity.
Qed.

(** ** [next] *)

(** C3, amended: for a partial [p] that passes the check, when every field
    of the merge is [plain] for [fns], [next(p)] leaves the receiver with
    [touched] true and with the merge of [p] over its values as [values],
    its other fields unchanged, and returns a new instance with that merge
    as [values], the [fns] and the [dirty] flag of the receiver, [touched]
    true, and the [errors] and [invalid] of a validation pass over the
    merge.  The merge has, at each key, the property of [p] when [p] has
    one and the one of the former values otherwise. *)
Theorem next_spec (w : world) (partial : jsval) :
  FormState (this w) → _isInvalidParam partial = false →
  well_keyed (spread (values (this w)) partial) (fns (this w)) = true →
  ∃ (vm : gmap string jsval) (r : ValidationResult.t),
    (∀ key, vm !! key
            = match own_enumerable partial !! key with
              | Some x => Some x
              | None => own_enumerable (values (this w)) !! key
              end)
    ∧ validation (JObj vm) (fns (this w)) = Return r
    ∧ next partial w
      = (mkWorld
           (mkForm (JObj vm) (fns (this w)) (dirty (this w)) true
              (errors (this w)) (invalid (this w)))
           (calls w),
         Return
           (mkForm (JObj vm) (fns (this w)) (dirty (this w)) true
              (ValidationResult.errors r) (ValidationResult.invalid r))).
Proof.
  intros Hf _ Hkeys. destruct (next_Return w partial Hf Hkeys) as (r & Hr & Hnext).
  exists (own_enumerable partial ∪ own_enumerable (values (this w))), r.
  split; [intros key; apply (spread_lookup (values (this w)) partial)|].
  split; [exact Hr | exact Hnext].
Qed.

(** C1 fails on the code: [next] has no argument check.  On every instance
    whose fields are [plain] for [fns], [next(null)], [next(undefined)]
    and [next] of an array throw nothing: each marks the receiver as
    touched and returns a new instance.  On [Form({})], the three calls of
    the test suite return an instance with the values [{}]. *)
Theorem next_invalid_partial_returns (w : world) (partial : jsval) :
  FormState (this w) →
  well_keyed (spread (values (this w)) partial) (fns (this w)) = true →
  partial = JNull ∨ partial = JUndefined ∨ (∃ l, partial = JArr l) →
  (∃ w' f', next partial w = (w', Return f')
            ∧ touched (this w') = true ∧ touched f' = true)
  ∧ (∀ p, p ∈ [JNull; JUndefined; JArr []] →
       on empty_form (next p)
       = (mkWorld (mkForm (JObj ∅) (FnsObj ∅) false true ∅ false) [],
          Return (mkForm (JObj ∅) (FnsObj ∅) false true ∅ false))).
Proof.
  intros Hf Hkeys _. split.
  - destruct (next_Return w partial Hf Hkeys) as (r & _ & ->).
    by eexists _, _.
  - intros p Hin. repeat (apply elem_of_cons in Hin as [-> | Hin]).
    1-3: reflexivity.
    by apply elem_of_nil in Hin.
Qed.

(** ** [submit] *)

(** C7, amended: on an instance whose fields are [plain] for [fns],
    [submit] throws nothing and returns a new instance with [dirty] true,
    with the [values], [fns] and [touched] of the receiver, and with the
    [errors] and [invalid] of a validation pass; without an event it calls
    nothing, and with an event it calls its [preventDefault] once.
    [Form({}).submit()] and [Form({})] differ in [dirty], true against
    false, and agree on [errors], [fns], [invalid], [touched] and
    [values]. *)
Theorem submit_spec (w : world) (e : option SubmitEvent) :
  FormState (this w) → well_keyed (values (this w)) (fns (this w)) = true →
  (∃ w' f',
     submit e w = (w', Return f')
     ∧ calls w' = calls w ++ match e with
                             | Some ev => [preventDefault ev]
                             | None => []
                             end
     ∧ dirty f' = true
     ∧ values f' = values (this w)
     ∧ fns f' = fns (this w)
     ∧ touched f' = touched (this w)
     ∧ fresh f')
  ∧ (∃ f0 w' f1,
       build (JObj ∅) FnsUndefined None None = Return f0
       ∧ on f0 (submit None) = (w', Return f1)
       ∧ dirty f0 = false ∧ dirty f1 = true
       ∧ errors f1 = errors f0
       ∧ fns f1 = fns f0
       ∧ invalid f1 = invalid f0
       ∧ touched f1 = touched f0
       ∧ values f1 = values f0).
Proof.
  intros [Hv Hfns] Hkeys. split.
  - rewrite submit_steps.
    destruct (new_Form_Return (values (this w)) (fns (this w)) true
                (touched (this w))) as (r & Hr & Hnew);
      [done | by apply only_validator_lists_valid | done |].
    rewrite Hnew. eexists _, _. split; [reflexivity|].
    do 5 (split; [done|]). by apply new_Form_fresh in Hnew.
  - eexists _, _, _. split; [reflexivity|]. split; [reflexivity|].
    by repeat split.
Qed.

(** ** [validate] *)

Lemma field_result_FnsObj (v : jsval) (fm : gmap string (list Fn)) (key : string) :
  field_result v (FnsObj fm) key
  = value ← get v key;
    result_of (from_option inr (inl (inherited rt KObject key)) (fm !! key)) value.
Proof. reflexivity. Qed.





(** * Further properties *)

(** ** [validate], on any arguments *)

(** X1: the outcome of [validate] depends on the set of the keys it is
    given, not on their order or on repetitions: two lists with the same
    elements give the same result, or both throw the same exception. *)
Theorem validate_keys_set (keys keys' : list string) (v : jsval) (fns_ : fnsval) :
  (∀ key, key ∈ keys ↔ key ∈ keys') →
  validate keys v fns_ = validate keys' v fns_.
Proof.
  intros Hkeys.
  assert (∀ l l' r, (∀ key, key ∈ l ↔ key ∈ l') →
                    validate l v fns_ = Return r → validate l' v fns_ = Return r)
    as Hret.
  { intros l l' r Hl Hr.
    pose proof (validate_Return_inv l v fns_ r Hr) as Hflags.
    destruct (validate_Return v fns_ (flag v fns_) l Hflags)
      as (r1 & Hr1 & Herr1 & Hinv1).
    destruct (validate_Return v fns_ (flag v fns_) l')
      as (r2 & Hr2 & Herr2 & Hinv2).
    { intros key Hin. apply Hflags. by apply Hl. }
    rewrite Hr2. rewrite Hr1 in Hr. injection Hr as <-.
    destruct r1 as [errs1 inv1], r2 as [errs2 inv2]. cbn in *.
    f_equal. f_equal.
    - apply map_eq. intros key. rewrite Herr1, Herr2.
      destruct (decide (key ∈ l)) as [Hin|Hin].
      + rewrite decide_True; [done | by apply Hl].
      + rewrite decide_False; [done | by rewrite <- Hl].
    - rewrite Hinv1, Hinv2. symmetry. by apply existsb_elements. }
  destruct (validate keys v fns_) as [r|e] eqn:Hr.
  { symmetry. by apply (Hret keys keys'). }
  destruct (validate keys' v fns_) as [r'|e'] eqn:Hr'.
  { apply (Hret keys' keys) in Hr'; [congruence|]. intros key. by rewrite Hkeys. }
  apply validate_Throw in Hr as ->. by apply validate_Throw in Hr' as ->.
Qed.

(** X2: whenever [validate] returns, on any [values] and [fns], the keys
    of [errors] are the keys it was given, the flag of each key is the
    result computed for it, and [invalid] is true exactly when one of the
    flags is. *)
Theorem validate_returns_shape (keys : list string) (v : jsval) (fns_ : fnsval)
    (r : ValidationResult.t) :
  validate keys v fns_ = Return r →
  dom (ValidationResult.errors r) = list_to_set keys
  ∧ (∀ key, key ∈ keys →
       ∃ b, field_result v fns_ key = Return b
            ∧ ValidationResult.errors r !! key = Some b)
  ∧ (ValidationResult.invalid r = true
     ↔ ∃ key, key ∈ keys ∧ ValidationResult.errors r !! key = Some true).
Proof.
  intros Hr. pose proof (validate_Return_inv keys v fns_ r Hr) as Hflags.
  destruct (validate_shape keys v fns_ r Hr) as [Herr Hinv]. split; [|split].
  - apply leibniz_equiv. intros key.
    rewrite elem_of_dom, elem_of_list_to_set, Herr.
    case_decide; [by split | split; [by intros [? ?] | done]].
  - intros key Hin. exists (flag v fns_ key).
    split; [by apply Hflags | by rewrite Herr, decide_True].
  - rewrite Hinv, existsb_exists. split.
    + intros (key & Hin & Hflag). apply list_elem_of_In in Hin. exists key.
      by rewrite Herr, decide_True, Hflag.
    + intros (key & Hin & Hkey). rewrite Herr, decide_True in Hkey by done.
      exists key. split; [by apply list_elem_of_In | congruence].
Qed.

(** X3: with [values] or [fns] [null] or [undefined], [validate] throws a
    [TypeError] as soon as it is given a key; the first property read
    fails. *)
Theorem validate_nullish_TypeError (keys : list string) (v : jsval)
    (fns_ : fnsval) :
  keys ≠ [] →
  v = JNull ∨ v = JUndefined ∨ fns_ = FnsNull ∨ fns_ = FnsUndefined →
  validate keys v fns_ = Throw TypeError.
Proof.
  intros Hkeys Hnull. destruct keys as [|key keys]; [done|].
  assert (∃ e, field_result v fns_ key = Throw e) as [e He].
  { unfold field_result. destruct (get v key) as [x|e] eqn:Hget; cbn.
    - destruct Hnull as [-> | [-> | [-> | ->]]]; try discriminate; by eexists.
    - by eexists. }
  unfold validate. cbn [foldl]. unfold validate_step at 2. cbn.
  rewrite He. cbn. rewrite foldl_validate_step_Throw. cbn.
  by apply field_result_Throw in He as ->.
Qed.

(** ** The validators *)

(** X4: validators registered for a field that is not among the keys are
    never used: adding, replacing or removing them leaves the outcome of
    [validate] as it is. *)
Theorem validate_unknown_field (keys : list string) (v : jsval)
    (fm : gmap string (list Fn)) (key : string) (l : list Fn) :
  key ∉ keys →
  validate keys v (FnsObj (<[key := l]> fm)) = validate keys v (FnsObj fm)
  ∧ validate keys v (FnsObj (delete key fm)) = validate keys v (FnsObj fm).
Proof.
  intros Hkey. split; apply validate_ext; intros key' Hin;
    rewrite !field_result_FnsObj;
    assert (key ≠ key') as Hne by (intros ->; done).
  - by rewrite lookup_insert_ne.
  - by rewrite lookup_delete_ne.
Qed.

(** X5: the order of the validators of a field is irrelevant: replacing
    the list of a field by a permutation of it leaves the outcome of
    [validate] as it is. *)
Theorem validate_validators_Permutation (keys : list string) (v : jsval)
    (fm : gmap string (list Fn)) (key : string) (l l' : list Fn) :
  fm !! key = Some l → l ≡ₚ l' →
  validate keys v (FnsObj (<[key := l']> fm)) = validate keys v (FnsObj fm).
Proof.
  intros Hl Hperm. apply validate_ext. intros key' _.
  rewrite !field_result_FnsObj. destruct (get v key') as [value|e]; [|done].
  cbn. destruct (decide (key = key')) as [<-|Hne].
  - rewrite lookup_insert_eq, Hl. cbn. f_equal. symmetry.
    by apply existsb_Permutation.
  - by rewrite lookup_insert_ne.
Qed.

(** X6: a validator added to a field never clears an error: with more
    validators on a field, every flag that was true stays true, and so
    does [invalid]. *)
Theorem validate_more_validators (keys : list string) (v : jsval)
    (fm : gmap string (list Fn)) (key : string) (l l' : list Fn)
    (r : ValidationResult.t) :
  fm !! key = Some l →
  validate keys v (FnsObj fm) = Return r →
  ∃ r', validate keys v (FnsObj (<[key := l ++ l']> fm)) = Return r'
        ∧ (∀ key', ValidationResult.errors r !! key' = Some true →
                   ValidationResult.errors r' !! key' = Some true)
        ∧ (ValidationResult.invalid r = true →
           ValidationResult.invalid r' = true).
Proof.
  intros Hl Hr.
  pose proof (validate_Return_inv keys v (FnsObj fm) r Hr) as Hflags.
  destruct (validate_shape keys v (FnsObj fm) r Hr) as [Herr Hinv].
  set (g := λ key', flag v (FnsObj fm) key' ||
                    (bool_decide (key' = key)
                     && flag v (FnsObj (<[key := l ++ l']> fm)) key')).
  destruct (validate_Return v (FnsObj (<[key := l ++ l']> fm)) g keys)
    as (r' & Hr' & Herr' & Hinv').
  { intros key' Hin. specialize (Hflags key' Hin). subst g. cbn beta.
    unfold flag. rewrite !field_result_FnsObj in *.
    destruct (get v key') as [value|e]; [|done]. cbn in *.
    destruct (decide (key' = key)) as [->|Hne].
    - rewrite bool_decide_eq_true_2 by done.
      rewrite lookup_insert_eq, Hl. cbn. rewrite existsb_app. f_equal.
      by destruct (existsb _ l), (existsb _ l').
    - rewrite bool_decide_eq_false_2 by done.
      rewrite lookup_insert_ne by done.
      destruct (result_of _ value) as [b|e]; [|done].
      cbn. by rewrite orb_false_r. }
  exists r'. split; [exact Hr'|]. split.
  - intros key'. rewrite Herr, Herr'. case_decide; [|done].
    intros [= Htrue]. subst g. cbn beta. by rewrite Htrue.
  - rewrite Hinv, Hinv', !existsb_exists.
    intros (key' & Hin & Htrue). exists key'. split; [done|].
    subst g. cbn beta. by rewrite Htrue.
Qed.

(** ** Construction, on any arguments *)

Lemma forallb_false {A : Type} (p : A → bool) (l : list A) :
  forallb p l = false → ∃ x, x ∈ l ∧ p x = false.
Proof.
  induction l as [|x l IH]; cbn; [done|].
  destruct (p x) eqn:Hx; cbn.
  - intros (y & Hin & Hy)%IH. exists y. split; [by right | done].
  - intros _. exists x. split; [by left | done].
Qed.

(** The constructor, once its arguments have passed the checks. *)
Lemma new_Form_checked (v : jsval) (fns_ : fnsval) (d t : bool) :
  _isInvalidParam v = false → _isInvalidParam fns_ = false →
  new_Form v fns_ (Some d) (Some t)
  = r ← validation v fns_;
    Return (mkForm v fns_ d t (ValidationResult.errors r)
              (ValidationResult.invalid r)).
Proof.
  intros Hv Hfns. unfold new_Form.
  by rewrite (_isInvalidParam_defined fns_ Hfns), Hv, Hfns.
Qed.

(** X7: on [values] and [fns] that pass the check, [fns] omitted
    included, when every field of [values] is [plain] for [fns], the
    constructor returns an instance that stores its arguments, [{}] for an
    omitted [fns] and [false] for an omitted flag; its [errors] has the
    keys of [values], and its [invalid] is true exactly when one of the
    flags of [errors] is. *)
Theorem new_Form_typed (v : jsval) (fns_ : fnsval) (d t : option bool) :
  _isInvalidParam v = false →
  _isInvalidParam (if is_undefined fns_ then FnsObj ∅ else fns_) = false →
  well_keyed v (if is_undefined fns_ then FnsObj ∅ else fns_) = true →
  ∃ f, new_Form v fns_ d t = Return f
       ∧ values f = v
       ∧ fns f = (if is_undefined fns_ then FnsObj ∅ else fns_)
       ∧ dirty f = default false d
       ∧ touched f = default false t
       ∧ dom (errors f) = dom (own_enumerable v)
       ∧ (invalid f = true ↔ ∃ key, errors f !! key = Some true).
Proof.
  intros Hv Hfns Hkeys.
  destruct (validation_Return v _ Hv Hkeys) as (r & Hr).
  assert (new_Form v fns_ d t
          = Return (mkForm v (if is_undefined fns_ then FnsObj ∅ else fns_)
                      (default false d) (default false t)
                      (ValidationResult.errors r) (ValidationResult.invalid r)))
    as Hnew by (unfold new_Form; by rewrite Hv, Hfns, Hr).
  eexists. split; [exact Hnew|]. do 4 (split; [done|]).
  apply new_Form_fresh in Hnew. by apply fresh_errors_invalid in Hnew.
Qed.

(** X8: the constructor throws in three cases only: the error "values
    parameter must be an object" when [values] fails the check; the error
    "fns parameter must be an object" when [values] passes it and [fns] is
    [null] or an array; and a [TypeError], raised by the validation pass,
    when both pass and [values] has a field for which [fns[field]] is a
    truthy value that is no array. *)
Theorem new_Form_Throw (v : jsval) (fns_ : fnsval) (d t : option bool) (e : exn) :
  new_Form v fns_ d t = Throw e →
  (e = Error "values parameter must be an object" ∧ _isInvalidParam v = true)
  ∨ (e = Error "fns parameter must be an object" ∧ _isInvalidParam v = false
     ∧ (fns_ = FnsNull ∨ ∃ l, fns_ = FnsArr l))
  ∨ (e = TypeError ∧ _isInvalidParam v = false
     ∧ _isInvalidParam (if is_undefined fns_ then FnsObj ∅ else fns_) = false
     ∧ ∃ key, is_Some (own_enumerable v !! key)
              ∧ plain (if is_undefined fns_ then FnsObj ∅ else fns_) key = false).
Proof.
  destruct (_isInvalidParam v) eqn:Hv.
  { unfold new_Form. rewrite Hv. intros [= <-]. by left. }
  destruct (_isInvalidParam (if is_undefined fns_ then FnsObj ∅ else fns_))
    eqn:Hfns.
  { unfold new_Form. rewrite Hv, Hfns. intros [= <-]. right. left.
    split; [done|]. split; [done|].
    apply _isInvalidParam_fnsval in Hfns.
    destruct fns_; destruct Hfns as [?|[?|[? ?]]]; try discriminate; eauto. }
  unfold new_Form. rewrite Hv, Hfns. intros Hnew. right. right.
  destruct (validation v _) as [r|e'] eqn:Hr; cbn in Hnew; [done|].
  injection Hnew as <-. apply validation_Throw in Hr as He. subst e'.
  split; [done|]. split; [done|]. split; [done|].
  destruct (well_keyed v (if is_undefined fns_ then FnsObj ∅ else fns_))
    eqn:Hkeys.
  { destruct (validation_Return v _ Hv Hkeys) as (r & Hr'). congruence. }
  apply forallb_false in Hkeys as (key & Hin & Hplain). exists key.
  split; [|done].
  by apply (elem_of_Object_keys v _ key (Object_keys_Return v Hv)).
Qed.

(** ** How the methods compose *)

Lemma well_keyed_subseteq (v v' : jsval) (fns_ : fnsval) :
  (∀ key, is_Some (own_enumerable v !! key) →
          is_Some (own_enumerable v' !! key)) →
  well_keyed v' fns_ = true → well_keyed v fns_ = true.
Proof.
  intros Hsub Hkeys. unfold well_keyed. apply forallb_forall. intros key Hin.
  apply list_elem_of_In, list_elem_of_fmap in Hin as [[k x] [-> Hin]].
  apply elem_of_map_to_list in Hin.
  apply (well_keyed_plain v' fns_ k Hkeys), Hsub. by exists x.
Qed.

(** X9: two [set] in a row are one [set] of the merged partials: when
    every field of the final merge is [plain] for [fns], calling [set(p)]
    and then [set(q)] leaves the world that [set({...p, ...q})] leaves. *)
Theorem set_set (w : world) (p q : jsval) :
  _isInvalidParam p = false → _isInvalidParam q = false →
  well_keyed (spread (spread (values (this w)) p) q) (fns (this w)) = true →
  bind (set p) (λ _, set q) w = set (spread p q) w.
Proof.
  intros Hp Hq Hkeys.
  assert (well_keyed (spread (values (this w)) p) (fns (this w)) = true)
    as Hkeys1.
  { apply (well_keyed_subseteq _ (spread (spread (values (this w)) p) q));
      [|done].
    intros key [x Hx]. rewrite spread_lookup.
    destruct (own_enumerable q !! key); [by eexists | by exists x]. }
  unfold bind. rewrite (set_steps p) by done.
  destruct (validation_Return (spread (values (this w)) p) (fns (this w)))
    as (r1 & ->); [done..|].
  rewrite !set_steps by done. unfold validated, merged.
  cbn [this calls values fns dirty touched].
  rewrite spread_assoc in *.
  by destruct (validation_Return (spread (values (this w)) (spread p q))
                 (fns (this w))) as (r2 & ->).
Qed.

(** X10: for a partial that passes the check, [next(p)] returns an
    instance exactly when [set(p)] returns, and the instance it returns is
    the one that [set(p)] makes of the receiver: the same [values], [fns],
    flags, [errors] and [invalid]. *)
Theorem next_returns_set_state (w : world) (partial : jsval) (f' : Form) :
  FormState (this w) → _isInvalidParam partial = false →
  snd (next partial w) = Return f'
  ↔ set partial w = (mkWorld f' (calls w), Return tt).
Proof.
  intros [Hv Hfns] Hp. rewrite next_steps, set_steps by done. cbn [snd].
  rewrite new_Form_checked; [|done | by apply only_validator_lists_valid].
  destruct (validation _ (fns (this w))) as [r|e]; cbn; [|done].
  split; [by intros [= <-] | by intros [= <-]].
Qed.

(** X11: on a fresh instance, [submit] returns an instance equal to the
    receiver as the call leaves it, that is the receiver with [dirty]
    true; and a [submit] on that instance returns it again. *)
Theorem submit_fresh_returns_receiver (w : world) (e : option SubmitEvent) :
  FormState (this w) → fresh (this w) →
  ∃ w' f', submit e w = (w', Return f')
           ∧ this w' = f'
           ∧ f' = mkForm (values (this w)) (fns (this w)) true
                    (touched (this w)) (errors (this w)) (invalid (this w))
           ∧ ∀ e' cs, snd (submit e' (mkWorld f' cs)) = Return f'.
Proof.
  intros [Hv Hfns] Hfresh. unfold fresh in Hfresh.
  assert (∀ t, new_Form (values (this w)) (fns (this w)) (Some true) (Some t)
               = Return (mkForm (values (this w)) (fns (this w)) true t
                           (errors (this w)) (invalid (this w)))) as Hnew.
  { intros t. rewrite new_Form_checked;
      [|done | by apply only_validator_lists_valid].
    by rewrite Hfresh. }
  rewrite submit_steps, Hnew. eexists _, _. split; [reflexivity|].
  split; [done|]. split; [done|].
  intros e' cs. rewrite submit_steps. cbn [snd this values fns touched].
  apply Hnew.
Qed.

(** X12: on a fresh instance whose [values] is an object, a [set] of a
    partial without properties ([{}], a number, a boolean, the empty
    string) only sets [touched]. *)
Theorem set_no_properties (w : world) (partial : jsval)
    (vm : gmap string jsval) :
  FormState (this w) → fresh (this w) → values (this w) = JObj vm →
  _isInvalidParam partial = false → own_enumerable partial = ∅ →
  set partial w
  = (mkWorld
       (mkForm (values (this w)) (fns (this w)) (dirty (this w)) true
          (errors (this w)) (invalid (this w)))
       (calls w),
     Return tt).
Proof.
  intros Hf Hfresh Hvm Hp Hempty. unfold fresh in Hfresh.
  rewrite set_steps by done.
  assert (spread (values (this w)) partial = values (this w)) as Hspread.
  { unfold spread. by rewrite Hempty, Hvm, (left_id_L ∅ (∪)). }
  unfold validated, merged. rewrite Hspread, Hfresh. reflexivity.
Qed.

Lemma field_result_spread (vm : gmap string jsval) (partial : jsval)
    (fns_ : fnsval) (key : string) :
  own_enumerable partial !! key = None →
  field_result (spread (JObj vm) partial) fns_ key
  = field_result (JObj vm) fns_ key.
Proof.
  intros Hkey. unfold field_result, spread. cbn.
  by rewrite lookup_union_r.
Qed.

(** X13: on a fresh instance whose [values] is an object, a [set] that
    returns leaves the error flag of every field that the partial does not
    mention as it was. *)
Theorem set_other_fields_errors (w w' : world) (partial : jsval)
    (vm : gmap string jsval) (key : string) :
  fresh (this w) → values (this w) = JObj vm →
  own_enumerable partial !! key = None →
  set partial w = (w', Return tt) →
  errors (this w') !! key = errors (this w) !! key.
Proof.
  intros Hfresh Hvm Hkey Hset.
  destruct (_isInvalidParam partial) eqn:Hp.
  { unfold set in Hset. by rewrite Hp in Hset. }
  rewrite set_steps in Hset by done.
  destruct (validation _ (fns (this w))) as [r|e] eqn:Hr; [|done].
  injection Hset as <-. cbn [this errors validated].
  destruct (validation_shape _ _ _ Hr) as [Herr _].
  destruct (validation_shape _ _ _ Hfresh) as [Herr0 _]. cbn in Herr0.
  rewrite Herr, Herr0, Hvm. unfold flag.
  rewrite (field_result_spread vm partial _ key Hkey).
  cbn [own_enumerable spread]. by rewrite lookup_union_r.
Qed.

(** X14: [set] gives a flag to every field of the merge: after a [set(p)]
    that returns, the keys of [errors] are the keys of the former [values]
    together with the keys of [p], so that a partial with a new key adds a
    field. *)
Theorem set_errors_keys (w w' : world) (partial : jsval) :
  set partial w = (w', Return tt) →
  dom (errors (this w'))
  = dom (own_enumerable (values (this w))) ∪ dom (own_enumerable partial)
  ∧ dom (own_enumerable (values (this w'))) = dom (errors (this w')).
Proof.
  intros Hset. pose proof (set_fresh _ _ _ Hset) as Hfresh.
  apply fresh_errors_invalid in Hfresh as [Hdom _]. rewrite Hdom.
  split; [|done].
  destruct (_isInvalidParam partial) eqn:Hp.
  { unfold set in Hset. by rewrite Hp in Hset. }
  rewrite set_steps in Hset by done.
  destruct (validation _ (fns (this w))) as [r|e]; [|done].
  injection Hset as <-. cbn [this values validated merged own_enumerable spread].
  rewrite dom_union_L. apply (comm_L (∪)).
Qed.

(** ** What no method does *)

(** [set] and [next] make no call on the environment, whether they return
    or throw. *)
Lemma set_next_no_calls (w : world) (partial : jsval) :
  calls (fst (set partial w)) = calls w
  ∧ calls (fst (next partial w)) = calls w.
Proof.
  split; [|by rewrite next_steps].
  destruct (_isInvalidParam partial) eqn:Hp.
  - unfold set. by rewrite Hp.
  - rewrite set_steps by done. by destruct (validation _ (fns (this w))).
Qed.

(** X15: when [set] throws on a partial that passes the check, the
    exception is a [TypeError] of the validation pass and the receiver is
    not restored: it holds the merged [values] and [touched] true, with
    its former [errors] and [invalid]. *)
Theorem set_TypeError_receiver (w w' : world) (partial : jsval) (e : exn) :
  _isInvalidParam partial = false →
  set partial w = (w', Throw e) →
  e = TypeError
  ∧ w' = mkWorld
           (mkForm (spread (values (this w)) partial) (fns (this w))
              (dirty (this w)) true (errors (this w)) (invalid (this w)))
           (calls w).
Proof.
  intros Hp. rewrite set_steps by done.
  destruct (validation _ (fns (this w))) as [r|e'] eqn:Hr; [done|].
  intros [= <- <-]. by apply validation_Throw in Hr as ->.
Qed.

(** One call keeps an instance in the data model, keeps its [fns], clears
    neither [dirty] nor [touched], and removes no field. *)
Lemma step_invariant (f f' : Form) :
  FormState f → step f f' →
  FormState f'
  ∧ fns f' = fns f
  ∧ (dirty f = true → dirty f' = true)
  ∧ (touched f = true → touched f' = true)
  ∧ dom (own_enumerable (values f)) ⊆ dom (own_enumerable (values f')).
Proof.
  intros [Hv Hfns] Hstep.
  assert (∀ p, dom (own_enumerable (values f))
               ⊆ dom (own_enumerable (spread (values f) p))) as Hdom.
  { intros p. cbn [own_enumerable spread]. rewrite dom_union. set_solver. }
  pose proof (only_validator_lists_valid _ Hfns) as Hfns'.
  destruct Hstep as [p|p|p w' f' Hnext|e|e w' f' Hsubmit].
  - unfold on. destruct (_isInvalidParam p) eqn:Hp.
    + unfold set. rewrite Hp. cbn. by repeat split.
    + rewrite set_steps by done. cbn [this].
      destruct (validation _ (fns f)); cbn; repeat split; try done; apply Hdom.
  - unfold on. rewrite next_steps. cbn. repeat split; try done. apply Hdom.
  - unfold on in Hnext. rewrite next_steps in Hnext. cbn [this calls] in Hnext.
    injection Hnext as _ Hnew. rewrite new_Form_checked in Hnew by done.
    destruct (validation _ (fns f)) as [r|e]; [|done]. cbn in Hnew.
    injection Hnew as <-. cbn. repeat split; try done. apply Hdom.
  - unfold on. rewrite submit_steps. cbn. by repeat split.
  - unfold on in Hsubmit. rewrite submit_steps in Hsubmit.
    cbn [this calls] in Hsubmit.
    injection Hsubmit as _ Hnew. rewrite new_Form_checked in Hnew by done.
    destruct (validation _ (fns f)) as [r|e']; [|done]. cbn in Hnew.
    injection Hnew as <-. cbn. by repeat split.
Qed.

(** X16: along any sequence of calls of [set], [next] and [submit], on
    receivers and on returned instances alike, an instance stays in the
    data model, [fns] never changes, [dirty] and [touched] are never
    cleared once true, and no field of [values] is ever removed. *)
Theorem steps_invariant (f f' : Form) :
  FormState f → rtc step f f' →
  FormState f'
  ∧ fns f' = fns f
  ∧ (dirty f = true → dirty f' = true)
  ∧ (touched f = true → touched f' = true)
  ∧ dom (own_enumerable (values f)) ⊆ dom (own_enumerable (values f')).
Proof.
  intros Hf Hsteps. induction Hsteps as [f|f f1 f2 Hstep _ IH].
  { repeat split; try done; apply Hf. }
  destruct (step_invariant f f1 Hf Hstep) as (Hf1 & Hfns1 & Hd1 & Ht1 & Hdom1).
  destruct (IH Hf1) as (Hf2 & Hfns2 & Hd2 & Ht2 & Hdom2).
  split; [done|]. split; [congruence|]. split; [auto|]. split; [auto|].
  by etrans.
Qed.

(** What [set] does on a partial that passes the check, when the fields of
    the merge are [plain]. *)
Lemma set_Return (w : world) (partial : jsval) :
  _isInvalidParam partial = false →
  well_keyed (spread (values (this w)) partial) (fns (this w)) = true →
  ∃ r, validation (spread (values (this w)) partial) (fns (this w)) = Return r
       ∧ set partial w
         = (mkWorld (validated (merged (this w) partial) r) (calls w),
            Return tt).
Proof.
  intros Hp Hkeys.
  destruct (validation_Return (spread (values (this w)) partial) (fns (this w)))
    as (r & Hr); [done..|].
  exists r. split; [done|]. by rewrite set_steps, Hr.
Qed.

End Form.

(** * On the runtime of ECMAScript 2017 *)

Lemma empty_form_built :
  build es2017 (JObj ∅) FnsUndefined None None = Return empty_form.
Proof. reflexivity. Qed.

Lemma email_form_built :
  build es2017 (obj [("code", JNum 112); ("email", JStr "exampel@wp.pl")])
    (FnsObj {[ "email" := [is_empty] ]}) None None
  = Return email_form.
Proof. vm_compute. reflexivity. Qed.

Lemma email_form_FormState : FormState email_form.
Proof. split; reflexivity. Qed.

Lemma email_form_fresh : fresh es2017 email_form.
Proof. exact (new_Form_fresh es2017 _ _ _ _ _ email_form_built). Qed.

(** ** Construction *)

(** C5, as stated, fails: an [undefined] [fns] argument takes the default
    [{}] before the check, and the construction returns an instance; and
    the check of [values] comes first, so that a [null] [fns] next to a
    [null] [values] is not reported. *)
Lemma new_Form_undefined_fns_returns :
  new_Form es2017 (JObj ∅) FnsUndefined None None
  = Return (mkForm (JObj ∅) (FnsObj ∅) false false ∅ false)
  ∧ new_Form es2017 (JObj ∅) FnsUndefined None None
    ≠ Throw (Error "fns parameter must be an object")
  ∧ new_Form es2017 JNull FnsNull None None
    = Throw (Error "values parameter must be an object").
Proof. split; [reflexivity|]. split; [discriminate | reflexivity]. Qed.

Lemma new_Form_rejects_witness :
  new_Form es2017 (JArr []) (FnsObj ∅) None None
  = Throw (Error "values parameter must be an object")
  ∧ new_Form es2017 (JObj ∅) FnsNull None None
    = Throw (Error "fns parameter must be an object").
Proof.
  split.
  - apply (proj1 (new_Form_rejects es2017 (JArr []) (FnsObj ∅) None None)).
    right; right. by exists [].
  - apply (proj1 (proj2 (new_Form_rejects es2017 (JObj ∅) FnsNull None None))).
    + intros [Hv | [Hv | [l Hv]]]; discriminate.
    + by left.
Defined.

(** C8, as stated, fails.  A string passes the argument check of [fns],
    and the validation pass then reads a character where it expects a list
    of validators, at construction as in [set].  And with [fns] omitted, a
    number or an object, a field named as a member of the prototype of
    [fns] makes the validation pass read that member: [Form({constructor:
    1})], [Form({toString: 1}, 5)] and [set({valueOf: 1})] throw a
    [TypeError]. *)
Lemma fns_read_TypeError :
  _isInvalidParam (FnsStr "a") = false
  ∧ new_Form es2017 (obj [("0", JNum 1)]) (FnsStr "a") None None = Throw TypeError
  ∧ (∃ f, new_Form es2017 (obj []) (FnsStr "a") None None = Return f
          ∧ snd (on f (set es2017 (obj [("0", JNum 1)]))) = Throw TypeError)
  ∧ new_Form es2017 (obj [("constructor", JNum 1)]) FnsUndefined None None
    = Throw TypeError
  ∧ new_Form es2017 (obj [("toString", JNum 1)]) (FnsNum 5) None None
    = Throw TypeError
  ∧ snd (on email_form (set es2017 (obj [("valueOf", JNum 1)])))
    = Throw TypeError.
Proof.
  split; [reflexivity|]. split; [reflexivity|].
  split; [eexists; split; reflexivity|].
  split; [reflexivity|]. split; [reflexivity|]. vm_compute. reflexivity.
Qed.

Lemma argument_check_exact_witness :
  _isInvalidParam (JStr "ab") = false
  ∧ _isInvalidParam (FnsNum 5) = false
  ∧ well_keyed es2017 (JStr "ab") (FnsNum 5) = true
  ∧ ∃ f, new_Form es2017 (JStr "ab") (FnsNum 5) None None = Return f.
Proof.
  assert (_isInvalidParam (JStr "ab") = false) as Hv by reflexivity.
  assert (_isInvalidParam (FnsNum 5) = false) as Hfns by reflexivity.
  assert (well_keyed es2017 (JStr "ab") (FnsNum 5) = true) as Hkeys
    by reflexivity.
  split; [exact Hv|]. split; [exact Hfns|]. split; [exact Hkeys|].
  destruct (argument_check_exact es2017 (JStr "ab") JNull (FnsNum 5) None None
              (mkWorld empty_form [])) as (_ & _ & _ & _ & Hnew & _).
  exact (Hnew Hv Hfns Hkeys).
Defined.

(** ** [set] *)

Lemma set_invalid_unchanged_witness :
  (JArr [JNum 1] = JNull ∨ JArr [JNum 1] = JUndefined
   ∨ ∃ l, JArr [JNum 1] = JArr l)
  ∧ on email_form (set es2017 (JArr [JNum 1]))
    = (mkWorld email_form [],
       Throw (Error "values parameter must be an object")).
Proof.
  assert (JArr [JNum 1] = JNull ∨ JArr [JNum 1] = JUndefined
          ∨ ∃ l, JArr [JNum 1] = JArr l) as Hp
    by (right; right; exists [JNum 1]; reflexivity).
  split; [exact Hp|].
  exact (set_invalid_unchanged es2017 (mkWorld email_form []) (JArr [JNum 1]) Hp).
Defined.

(** C6, as stated, fails: [{valueOf: 1}] passes the check, and on the
    instance of the tests [set] then throws a [TypeError], as [next] does,
    so that [next(p).values] does not exist: the validation pass reads
    [fns.valueOf], which is the method of [Object.prototype]. *)
Lemma set_inherited_name_TypeError :
  FormState email_form
  ∧ _isInvalidParam (obj [("valueOf", JNum 1)]) = false
  ∧ snd (on email_form (set es2017 (obj [("valueOf", JNum 1)]))) = Throw TypeError
  ∧ snd (on email_form (next es2017 (obj [("valueOf", JNum 1)])))
    = Throw TypeError.
Proof.
  split; [exact email_form_FormState|]. split; [reflexivity|].
  split; vm_compute; reflexivity.
Qed.

Lemma set_next_shallow_merge_witness :
  FormState email_form
  ∧ _isInvalidParam (obj [("code", JNum 11)]) = false
  ∧ well_keyed es2017 (spread (values email_form) (obj [("code", JNum 11)]))
      (fns email_form) = true
  ∧ ∃ w1, on email_form (set es2017 (obj [("code", JNum 11)])) = (w1, Return tt)
          ∧ touched (this w1) = true
          ∧ own_enumerable (values (this w1)) !! "code" = Some (JNum 11)
          ∧ own_enumerable (values (this w1)) !! "email"
            = Some (JStr "exampel@wp.pl").
Proof.
  assert (_isInvalidParam (obj [("code", JNum 11)]) = false) as Hp
    by reflexivity.
  assert (well_keyed es2017 (spread (values email_form) (obj [("code", JNum 11)]))
            (fns email_form) = true) as Hkeys by (vm_compute; reflexivity).
  split; [exact email_form_FormState|]. split; [exact Hp|].
  split; [exact Hkeys|].
  destruct (set_next_shallow_merge es2017 (mkWorld email_form [])
              (obj [("code", JNum 11)]) email_form_FormState Hp Hkeys)
    as (vm & w1 & Hvm & Hset & Hvalues & Htouched & _).
  exists w1. split; [exact Hset|]. split; [exact Htouched|].
  rewrite Hvalues. cbn [own_enumerable]. rewrite !Hvm. split; reflexivity.
Defined.

(** ** [next] *)

(** C3, as stated, fails: [{valueOf: 1}] passes the check, and on the
    instance of the tests [next] then throws a [TypeError] instead of
    returning an instance, after it has marked the receiver as touched and
    merged the partial into its values. *)
Lemma next_inherited_name_TypeError :
  FormState email_form
  ∧ _isInvalidParam (obj [("valueOf", JNum 1)]) = false
  ∧ on email_form (next es2017 (obj [("valueOf", JNum 1)]))
    = (mkWorld (merged email_form (obj [("valueOf", JNum 1)])) [],
       Throw TypeError).
Proof.
  split; [exact email_form_FormState|]. split; [reflexivity|].
  unfold on. rewrite next_steps. by f_equal.
Qed.

Lemma next_spec_witness :
  FormState email_form
  ∧ _isInvalidParam (obj [("email", JStr "")]) = false
  ∧ well_keyed es2017 (spread (values email_form) (obj [("email", JStr "")]))
      (fns email_form) = true
  ∧ ∃ w' f', on email_form (next es2017 (obj [("email", JStr "")]))
             = (w', Return f')
             ∧ touched (this w') = true
             ∧ values (this w') = values f'
             ∧ own_enumerable (values f') !! "email" = Some (JStr "")
             ∧ own_enumerable (values f') !! "code" = Some (JNum 112)
             ∧ touched f' = true
             ∧ dirty f' = false.
Proof.
  assert (_isInvalidParam (obj [("email", JStr "")]) = false) as Hp
    by reflexivity.
  assert (well_keyed es2017
            (spread (values email_form) (obj [("email", JStr "")]))
            (fns email_form) = true) as Hkeys by (vm_compute; reflexivity).
  split; [exact email_form_FormState|]. split; [exact Hp|].
  split; [exact Hkeys|].
  destruct (next_spec es2017 (mkWorld email_form []) (obj [("email", JStr "")])
              email_form_FormState Hp Hkeys) as (vm & r & Hvm & _ & Hnext).
  eexists _, _. split; [exact Hnext|]. cbn [this values touched dirty own_enumerable].
  rewrite !Hvm. repeat split.
Defined.

Lemma next_invalid_partial_returns_witness :
  FormState email_form
  ∧ well_keyed es2017 (spread (values email_form) JNull) (fns email_form) = true
  ∧ (JNull = JNull ∨ JNull = JUndefined ∨ ∃ l, JNull = JArr l)
  ∧ ∃ w' f', on email_form (next es2017 JNull) = (w', Return f')
             ∧ touched (this w') = true ∧ touched f' = true.
Proof.
  assert (well_keyed es2017 (spread (values email_form) JNull) (fns email_form)
          = true) as Hkeys by (vm_compute; reflexivity).
  assert (JNull = JNull ∨ JNull = JUndefined ∨ ∃ l, JNull = JArr l) as Hp
    by (left; reflexivity).
  split; [exact email_form_FormState|]. split; [exact Hkeys|].
  split; [exact Hp|].
  exact (proj1 (next_invalid_partial_returns es2017 (mkWorld email_form []) JNull
                  email_form_FormState Hkeys Hp)).
Defined.

(** C2 fails on the code for the receiver of [next]: [next] merges the
    partial into the [values] of the receiver and runs no validation pass
    on it.  After [next({email: ''})] on the instance built from [{code:
    112, email: 'exampel@wp.pl'}] with the validator [(value) =>
    value.length === 0] on [email], the receiver holds the empty [email]
    with an [errors.email] and an [invalid] that are still false, where a
    validation pass over its values gives true for both. *)
Theorem next_receiver_stale :
  ∃ w' f' r,
    on email_form (next es2017 (obj [("email", JStr "")])) = (w', Return f')
    ∧ own_enumerable (values (this w')) !! "email" = Some (JStr "")
    ∧ errors (this w') !! "email" = Some false
    ∧ invalid (this w') = false
    ∧ validation es2017 (values (this w')) (fns (this w')) = Return r
    ∧ ValidationResult.errors r !! "email" = Some true
    ∧ ValidationResult.invalid r = true
    ∧ ¬ fresh es2017 (this w').
Proof.
  assert (validation es2017
            (spread (values email_form) (obj [("email", JStr "")]))
            (fns email_form)
          = Return (ValidationResult.mk
                      (list_to_map [("code", false); ("email", true)]) true))
    as Hr by (vm_compute; reflexivity).
  eexists _, _, _. split.
  { unfold on. rewrite next_steps, new_Form_checked by reflexivity.
    cbn [this calls]. rewrite Hr. reflexivity. }
  split; [reflexivity|]. split; [reflexivity|]. split; [reflexivity|].
  split; [exact Hr|]. split; [reflexivity|]. split; [reflexivity|].
  unfold fresh. cbn [this fst]. unfold merged. cbn [values fns errors invalid this].
  rewrite Hr. discriminate.
Qed.

(** ** [submit] *)

(** C7, as stated, fails: [Form({}).set({constructor: 1})] throws and
    leaves [constructor] among the values of the receiver; a [submit()] on
    that instance then throws a [TypeError], for the constructor it calls
    runs the validation pass. *)
Lemma submit_inherited_name_TypeError :
  ∃ w,
    on empty_form (set es2017 (obj [("constructor", JNum 1)]))
    = (w, Throw TypeError)
    ∧ FormState (this w)
    ∧ snd (submit es2017 None w) = Throw TypeError.
Proof.
  eexists. split; [vm_compute; reflexivity|].
  split; [split; reflexivity | vm_compute; reflexivity].
Qed.

Lemma submit_spec_witness :
  FormState email_form
  ∧ well_keyed es2017 (values email_form) (fns email_form) = true
  ∧ ∃ w' f', on email_form (submit es2017 (Some 7%nat)) = (w', Return f')
             ∧ calls w' = [preventDefault 7%nat]
             ∧ dirty f' = true.
Proof.
  assert (well_keyed es2017 (values email_form) (fns email_form) = true)
    as Hkeys by (vm_compute; reflexivity).
  split; [exact email_form_FormState|]. split; [exact Hkeys|].
  destruct (submit_spec es2017 (mkWorld email_form []) (Some 7%nat)
              email_form_FormState Hkeys)
    as [(w' & f' & Hsubmit & Hcalls & Hdirty & _) _].
  exists w', f'. split; [exact Hsubmit|]. split; [exact Hcalls | exact Hdirty].
Defined.

(** ** [validate] *)





(** ** Further properties *)

Lemma validate_keys_set_witness :
  (∀ key, key ∈ ["email"; "code"; "email"] ↔ key ∈ ["code"; "email"])
  ∧ validate es2017 ["email"; "code"; "email"] (values email_form)
      (fns email_form)
    = validate es2017 ["code"; "email"] (values email_form) (fns email_form).
Proof.
  assert (∀ key, key ∈ ["email"; "code"; "email"] ↔ key ∈ ["code"; "email"])
    as Hkeys by (intros key; rewrite !elem_of_cons; tauto).
  split; [exact Hkeys|].
  exact (validate_keys_set es2017 _ _ (values email_form) (fns email_form) Hkeys).
Defined.

Lemma validate_returns_shape_witness :
  validate es2017 ["0"] (JStr "a") (FnsNum 3)
  = Return (ValidationResult.mk {[ "0" := false ]} false)
  ∧ dom ({[ "0" := false ]} : gmap string bool) = list_to_set ["0"].
Proof.
  assert (validate es2017 ["0"] (JStr "a") (FnsNum 3)
          = Return (ValidationResult.mk {[ "0" := false ]} false)) as Hr
    by (vm_compute; reflexivity).
  split; [exact Hr|].
  exact (proj1 (validate_returns_shape es2017 ["0"] (JStr "a") (FnsNum 3) _ Hr)).
Defined.

Lemma validate_nullish_TypeError_witness :
  ["code"] ≠ []
  ∧ (JNull = JNull ∨ JNull = JUndefined
     ∨ FnsObj ∅ = FnsNull ∨ FnsObj ∅ = FnsUndefined)
  ∧ validate es2017 ["code"] JNull (FnsObj ∅) = Throw TypeError.
Proof.
  assert (["code"] ≠ ([] : list string)) as Hkeys by discriminate.
  assert (JNull = JNull ∨ JNull = JUndefined
          ∨ FnsObj ∅ = FnsNull ∨ FnsObj ∅ = FnsUndefined) as Hnull
    by (left; reflexivity).
  split; [exact Hkeys|]. split; [exact Hnull|].
  exact (validate_nullish_TypeError es2017 ["code"] JNull (FnsObj ∅) Hkeys Hnull).
Defined.

Lemma validate_unknown_field_witness :
  ("phone" ∉ ["code"; "email"])
  ∧ validate es2017 ["code"; "email"] (values email_form)
      (FnsObj (<["phone" := [is_empty]]> {[ "email" := [is_empty] ]}))
    = validate es2017 ["code"; "email"] (values email_form)
        (FnsObj {[ "email" := [is_empty] ]}).
Proof.
  assert ("phone" ∉ ["code"; "email"]) as Hkey.
  { rewrite !not_elem_of_cons. repeat split; [discriminate..|]. apply not_elem_of_nil. }
  split; [exact Hkey|].
  exact (proj1 (validate_unknown_field es2017 ["code"; "email"]
                  (values email_form) {[ "email" := [is_empty] ]} "phone"
                  [is_empty] Hkey)).
Defined.

Lemma validate_validators_Permutation_witness :
  ({[ "email" := [is_empty; (λ _, JBool false)] ]} : gmap string (list Fn))
    !! "email" = Some [is_empty; (λ _, JBool false)]
  ∧ [is_empty; (λ _, JBool false)] ≡ₚ [(λ _, JBool false); is_empty]
  ∧ validate es2017 ["email"] (obj [("email", JStr "")])
      (FnsObj (<["email" := [(λ _, JBool false); is_empty]]>
                 {[ "email" := [is_empty; (λ _, JBool false)] ]}))
    = validate es2017 ["email"] (obj [("email", JStr "")])
        (FnsObj {[ "email" := [is_empty; (λ _, JBool false)] ]}).
Proof.
  assert (({[ "email" := [is_empty; (λ _, JBool false)] ]}
           : gmap string (list Fn)) !! "email"
          = Some [is_empty; (λ _, JBool false)]) as Hl by reflexivity.
  assert ([is_empty; (λ _, JBool false)] ≡ₚ [(λ _, JBool false); is_empty])
    as Hperm by apply Permutation_swap.
  split; [exact Hl|]. split; [exact Hperm|].
  exact (validate_validators_Permutation es2017 ["email"]
           (obj [("email", JStr "")]) _ "email" _ _ Hl Hperm).
Defined.

Lemma validate_more_validators_witness :
  ({[ "email" := [is_empty] ]} : gmap string (list Fn)) !! "email"
  = Some [is_empty]
  ∧ validate es2017 ["code"; "email"]
      (obj [("code", JNum 112); ("email", JStr "")])
      (FnsObj {[ "email" := [is_empty] ]})
    = Return (ValidationResult.mk
                (list_to_map [("code", false); ("email", true)]) true)
  ∧ ∃ r', validate es2017 ["code"; "email"]
            (obj [("code", JNum 112); ("email", JStr "")])
            (FnsObj (<["email" := [is_empty] ++ [(λ _, JBool false)]]>
                       {[ "email" := [is_empty] ]}))
          = Return r'
          ∧ ValidationResult.errors r' !! "email" = Some true
          ∧ ValidationResult.invalid r' = true.
Proof.
  assert (({[ "email" := [is_empty] ]} : gmap string (list Fn)) !! "email"
          = Some [is_empty]) as Hl by reflexivity.
  assert (validate es2017 ["code"; "email"]
            (obj [("code", JNum 112); ("email", JStr "")])
            (FnsObj {[ "email" := [is_empty] ]})
          = Return (ValidationResult.mk
                      (list_to_map [("code", false); ("email", true)]) true))
    as Hr by (vm_compute; reflexivity).
  split; [exact Hl|]. split; [exact Hr|].
  destruct (validate_more_validators es2017 ["code"; "email"]
              (obj [("code", JNum 112); ("email", JStr "")])
              {[ "email" := [is_empty] ]} "email" [is_empty]
              [(λ _, JBool false)] _ Hl Hr)
    as (r' & Hr' & Herr & Hinv).
  exists r'. split; [exact Hr'|]. split.
  - apply Herr. reflexivity.
  - apply Hinv. reflexivity.
Defined.

Lemma new_Form_typed_witness :
  _isInvalidParam (obj [("code", JNum 112); ("email", JStr "")]) = false
  ∧ _isInvalidParam (FnsObj {[ "email" := [is_empty] ]}) = false
  ∧ well_keyed es2017 (obj [("code", JNum 112); ("email", JStr "")])
      (FnsObj {[ "email" := [is_empty] ]}) = true
  ∧ ∃ f, new_Form es2017 (obj [("code", JNum 112); ("email", JStr "")])
           (FnsObj {[ "email" := [is_empty] ]}) None (Some true) = Return f
         ∧ dirty f = false ∧ touched f = true.
Proof.
  assert (_isInvalidParam (obj [("code", JNum 112); ("email", JStr "")]) = false)
    as Hv by reflexivity.
  assert (_isInvalidParam (FnsObj {[ "email" := [is_empty] ]}) = false) as Hfns
    by reflexivity.
  assert (well_keyed es2017 (obj [("code", JNum 112); ("email", JStr "")])
            (FnsObj {[ "email" := [is_empty] ]}) = true) as Hkeys
    by (vm_compute; reflexivity).
  split; [exact Hv|]. split; [exact Hfns|]. split; [exact Hkeys|].
  destruct (new_Form_typed es2017 _ (FnsObj {[ "email" := [is_empty] ]}) None
              (Some true) Hv Hfns Hkeys)
    as (f & Hf & _ & _ & Hd & Ht & _).
  exists f. split; [exact Hf|]. split; [exact Hd | exact Ht].
Defined.

Lemma new_Form_Throw_witness :
  new_Form es2017 (obj [("constructor", JNum 1)]) FnsUndefined None None
  = Throw TypeError
  ∧ ∃ key, is_Some (own_enumerable (obj [("constructor", JNum 1)]) !! key)
           ∧ plain es2017 (FnsObj ∅) key = false.
Proof.
  assert (new_Form es2017 (obj [("constructor", JNum 1)]) FnsUndefined None None
          = Throw TypeError) as Hnew by reflexivity.
  split; [exact Hnew|].
  destruct (new_Form_Throw es2017 _ _ _ _ _ Hnew)
    as [[He _] | [[He _] | (_ & _ & _ & Hkey)]]; [discriminate.. | exact Hkey].
Defined.

Lemma set_set_witness :
  _isInvalidParam (obj [("code", JNum 11)]) = false
  ∧ _isInvalidParam (obj [("email", JStr "")]) = false
  ∧ well_keyed es2017
      (spread (spread (values email_form) (obj [("code", JNum 11)]))
         (obj [("email", JStr "")])) (fns email_form) = true
  ∧ bind (set es2017 (obj [("code", JNum 11)]))
      (λ _, set es2017 (obj [("email", JStr "")])) (mkWorld email_form [])
    = set es2017 (spread (obj [("code", JNum 11)]) (obj [("email", JStr "")]))
        (mkWorld email_form []).
Proof.
  assert (_isInvalidParam (obj [("code", JNum 11)]) = false) as Hp by reflexivity.
  assert (_isInvalidParam (obj [("email", JStr "")]) = false) as Hq by reflexivity.
  assert (well_keyed es2017
            (spread (spread (values email_form) (obj [("code", JNum 11)]))
               (obj [("email", JStr "")])) (fns email_form) = true) as Hkeys
    by (vm_compute; reflexivity).
  split; [exact Hp|]. split; [exact Hq|]. split; [exact Hkeys|].
  exact (set_set es2017 (mkWorld email_form []) _ _ Hp Hq Hkeys).
Defined.

Lemma next_returns_set_state_witness :
  FormState email_form
  ∧ _isInvalidParam (obj [("email", JStr "")]) = false
  ∧ ∃ f', snd (on email_form (next es2017 (obj [("email", JStr "")])))
          = Return f'
          ∧ on email_form (set es2017 (obj [("email", JStr "")]))
            = (mkWorld f' [], Return tt).
Proof.
  assert (_isInvalidParam (obj [("email", JStr "")]) = false) as Hp by reflexivity.
  assert (well_keyed es2017
            (spread (values email_form) (obj [("email", JStr "")]))
            (fns email_form) = true) as Hkeys by (vm_compute; reflexivity).
  split; [exact email_form_FormState|]. split; [exact Hp|].
  destruct (next_Return es2017 (mkWorld email_form []) (obj [("email", JStr "")])
              email_form_FormState Hkeys) as (r & _ & Hnext).
  eexists. unfold on. rewrite Hnext. split; [reflexivity|].
  apply (next_returns_set_state es2017 (mkWorld email_form []) _ _
           email_form_FormState Hp).
  by rewrite Hnext.
Defined.

Lemma submit_fresh_returns_receiver_witness :
  FormState email_form ∧ fresh es2017 email_form
  ∧ ∃ w' f', on email_form (submit es2017 None) = (w', Return f') ∧ this w' = f'.
Proof.
  split; [exact email_form_FormState|]. split; [exact email_form_fresh|].
  destruct (submit_fresh_returns_receiver es2017 (mkWorld email_form []) None
              email_form_FormState email_form_fresh)
    as (w' & f' & Hsubmit & Hthis & _).
  exists w', f'. split; [exact Hsubmit | exact Hthis].
Defined.

Lemma set_no_properties_witness :
  FormState email_form ∧ fresh es2017 email_form
  ∧ _isInvalidParam (JNum 5) = false ∧ own_enumerable (JNum 5) = ∅
  ∧ on email_form (set es2017 (JNum 5))
    = (mkWorld
         (mkForm (values email_form) (fns email_form) false true
            (errors email_form) false) [],
       Return tt).
Proof.
  assert (_isInvalidParam (JNum 5) = false) as Hp by reflexivity.
  assert (own_enumerable (JNum 5) = ∅) as Hempty by reflexivity.
  split; [exact email_form_FormState|]. split; [exact email_form_fresh|].
  split; [exact Hp|]. split; [exact Hempty|].
  exact (set_no_properties es2017 (mkWorld email_form []) (JNum 5) _
           email_form_FormState email_form_fresh eq_refl Hp Hempty).
Defined.

Lemma set_other_fields_errors_witness :
  fresh es2017 email_form
  ∧ own_enumerable (obj [("code", JNum 11)]) !! "email" = None
  ∧ ∃ w', on email_form (set es2017 (obj [("code", JNum 11)])) = (w', Return tt)
          ∧ errors (this w') !! "email" = errors email_form !! "email".
Proof.
  assert (own_enumerable (obj [("code", JNum 11)]) !! "email" = None) as Hkey
    by reflexivity.
  assert (well_keyed es2017
            (spread (values email_form) (obj [("code", JNum 11)]))
            (fns email_form) = true) as Hkeys by (vm_compute; reflexivity).
  split; [exact email_form_fresh|]. split; [exact Hkey|].
  destruct (set_Return es2017 (mkWorld email_form []) (obj [("code", JNum 11)])
              eq_refl Hkeys) as (r & _ & Hset).
  eexists. split; [exact Hset|].
  exact (set_other_fields_errors es2017 (mkWorld email_form []) _ _ _ "email"
           email_form_fresh eq_refl Hkey Hset).
Defined.

Lemma set_errors_keys_witness :
  ∃ w', on email_form (set es2017 (obj [("phone", JStr "1")])) = (w', Return tt)
        ∧ "phone" ∈ dom (errors (this w')).
Proof.
  assert (well_keyed es2017
            (spread (values email_form) (obj [("phone", JStr "1")]))
            (fns email_form) = true) as Hkeys by (vm_compute; reflexivity).
  destruct (set_Return es2017 (mkWorld email_form []) (obj [("phone", JStr "1")])
              eq_refl Hkeys) as (r & _ & Hset).
  eexists. split; [exact Hset|].
  rewrite (proj1 (set_errors_keys es2017 _ _ _ Hset)).
  apply elem_of_union_r, elem_of_dom. by eexists.
Defined.

Lemma set_TypeError_receiver_witness :
  _isInvalidParam (obj [("constructor", JNum 1)]) = false
  ∧ on empty_form (set es2017 (obj [("constructor", JNum 1)]))
    = (mkWorld
         (mkForm (spread (JObj ∅) (obj [("constructor", JNum 1)])) (FnsObj ∅)
            false true ∅ false) [],
       Throw TypeError).
Proof.
  assert (_isInvalidParam (obj [("constructor", JNum 1)]) = false) as Hp
    by reflexivity.
  split; [exact Hp|].
  destruct (on empty_form (set es2017 (obj [("constructor", JNum 1)])))
    as [w' [[]|e]] eqn:Hset.
  - exfalso. vm_compute in Hset. discriminate.
  - destruct (set_TypeError_receiver es2017 _ w' _ e Hp Hset) as [-> ->].
    reflexivity.
Defined.

Lemma steps_invariant_witness :
  FormState email_form
  ∧ rtc (step es2017) email_form
      (this (fst (on (this (fst (on email_form (submit es2017 None))))
                    (set es2017 (obj [("code", JNum 11)])))))
  ∧ fns (this (fst (on (this (fst (on email_form (submit es2017 None))))
                      (set es2017 (obj [("code", JNum 11)])))))
    = fns email_form.
Proof.
  assert (rtc (step es2017) email_form
            (this (fst (on (this (fst (on email_form (submit es2017 None))))
                          (set es2017 (obj [("code", JNum 11)])))))) as Hsteps.
  { eapply rtc_l; [apply (step_submit es2017 email_form None)|].
    apply rtc_once. apply step_set. }
  split; [exact email_form_FormState|]. split; [exact Hsteps|].
  exact (proj1 (proj2 (steps_invariant es2017 _ _ email_form_FormState Hsteps))).
Defined.
